(** * QuadSplit: batch 2x2 quadrant extraction

    A shallow embedding of the non-presentational logic of [src/App.tsx]
    (the batch runner [processImages] and the packager [downloadZip]) and of
    the data model of [src/types.ts], together with the properties the
    specification states about them.

    Layout:
    - [JsNumber]      the IEEE-754 arithmetic behind the progress counter;
    - [ImageHelpers]  the quadrant geometry of [splitImageIntoFour];
    - [JsString]      [String.prototype.split] on a one-character separator;
    - [Types]         the data model of [src/types.ts];
    - [Zip]           the archive writer reached through [window.JSZip];
    - [App]           the component state, its effects, and the two handlers;
    - [Run]           what a run did, read off the effects it left;
    - [Fixtures]      sample inputs;
    - [Shell]         the other handlers of the component, over the page;
    - [View]          what the markup derives from the state;
    - [Progress]      the progress counter over a whole run;
    then the facts about each of them, and the properties of the handlers. *)

From Stdlib Require Import ZArith Lia Ascii String PrimFloat FloatOps SpecFloat FloatAxioms Uint63.
From stdpp Require Import gmap strings list pretty sorting.

Local Open Scope nat_scope.

(** ** JavaScript numbers

    Every JavaScript number is a binary64 float.  The progress counter is
    computed as [Math.round(((i + 1) / files.length) * 100)], so the division
    and the multiplication are the rounded IEEE operations, not exact
    rational arithmetic. *)
Module JsNumber.

(** An array index or length as a number.  Array lengths stay below
    [2^32], far inside the range where the conversion is exact. *)
Definition of_nat (n : nat) : float :=
  PrimFloat.of_uint63 (Uint63.of_Z (Z.of_nat n)).

(** [floor (v + 1/2)] for [v = m * 2^e] with [e < 0], on exact integers. *)
Definition round_half_up (m : positive) (e : Z) : Z :=
  Z.shiftr (Z.pos m + Z.shiftl 1 (- e - 1)) (- e).

(** [Math.round]: the integral number closest to [x], ties towards
    [+Infinity]; [NaN], the infinities, the zeros and integral values are
    returned as they are, and results in [(-1, 0)] round to [-0]. *)
Definition Math_round (x : float) : float :=
  match Prim2SF x with
  | S754_finite s m e =>
      if (0 <=? e)%Z then x
      else if s
           then PrimFloat.opp
                  (PrimFloat.of_uint63
                     (Uint63.of_Z (- Z.shiftr (Z.shiftl 1 (- e - 1) - Z.pos m) (- e))))
           else PrimFloat.of_uint63 (Uint63.of_Z (round_half_up m e))
  | _ => x
  end.

(** The expression of [processImages] at loop index [i] over [n] files. *)
Definition progress_at (i n : nat) : float :=
  Math_round (PrimFloat.mul (PrimFloat.div (of_nat (i + 1)) (of_nat n)) (of_nat 100)).

End JsNumber.

(** ** Quadrant geometry *)
Module ImageHelpers.

(** An axis-aligned source rectangle of a crop, in pixels. *)
Record Rect := mkRect { rx : nat; ry : nat; rw : nat; rh : nat }.

(** Modelled from the spec: [src/utils/imageHelpers.ts], which defines
    [splitImageIntoFour], is missing from the sources; section 4.1 of the
    specification gives the four crop rectangles, in row-major order, for
    an image of width [W] and height [H]. *)
Definition quadrantRects (W H : nat) : list Rect :=
  let hw := W / 2 in
  let hh := H / 2 in
  [ mkRect 0 0 hw hh;
    mkRect hw 0 (W - hw) hh;
    mkRect 0 hh hw (H - hh);
    mkRect hw hh (W - hw) (H - hh) ].

(** Pixel [(x, y)] lies inside rectangle [r]. *)
Definition covers (r : Rect) (x y : nat) : bool :=
  (rx r <=? x) && (x <? rx r + rw r) && (ry r <=? y) && (y <? ry r + rh r).

Definition area (r : Rect) : nat := rw r * rh r.

(** How many rectangles of [rs] contain pixel [(x, y)]. *)
Definition coverage (rs : list Rect) (x y : nat) : nat :=
  sum_list ((λ r, if covers r x y then 1 else 0) <$> rs).

Section Raster.
Context {Pixel : Type}.

(** A decoded image: [H] rows of [W] pixels. *)
Definition well_formed (W H : nat) (img : list (list Pixel)) : Prop :=
  length img = H ∧ Forall (λ row, length row = W) img.

(** Modelled from the spec: the crop of [img] by rectangle [r], as
    drawing the source rectangle onto a canvas of the crop's size. *)
Definition crop (r : Rect) (img : list (list Pixel)) : list (list Pixel) :=
  (λ row, take (rw r) (drop (rx r) row)) <$> take (rh r) (drop (ry r) img).

(** Modelled from the spec: [splitImageIntoFour] of the missing
    [src/utils/imageHelpers.ts], on the decoded pixel grid of an image of
    width [W] and height [H]: its four crops, in row-major order.  Decoding
    the file and encoding each crop as a data URL stay outside the model. *)
Definition splitImageIntoFour (W H : nat) (img : list (list Pixel)) : list (list (list Pixel)) :=
  (λ r, crop r img) <$> quadrantRects W H.

(** Two crops side by side, and one above the other. *)
Definition beside (a b : list (list Pixel)) : list (list Pixel) :=
  zip_with app a b.
Definition above (a b : list (list Pixel)) : list (list Pixel) := a ++ b.

(** The image put together again from its four quadrants. *)
Definition reassemble (qs : list (list (list Pixel))) : list (list Pixel) :=
  match qs with
  | [tl; tr; bl; br] => above (beside tl tr) (beside bl br)
  | _ => []
  end.

End Raster.

End ImageHelpers.

(** ** JavaScript strings *)
Module JsString.

(** [s.split(sep)] for a separator of one character: the pieces of [s]
    between the occurrences of [sep].  The result is never empty; a string
    without the separator is returned whole.  The separator used by the
    batch runner is the ASCII full stop, which is never part of a multi-byte
    character, so splitting byte strings agrees with splitting UTF-16. *)
Fixpoint split (sep : ascii) (s : string) : list string :=
  match s with
  | EmptyString => [EmptyString]
  | String c r =>
      if decide (c = sep) then EmptyString :: split sep r
      else match split sep r with
           | piece :: pieces => String c piece :: pieces
           | [] => [String c EmptyString]
           end
  end.

(** [arr[0]] on the array returned by [split]. *)
Definition first_piece (pieces : list string) : string := default EmptyString (head pieces).

(** The part of [s] before the last occurrence of [c], if [c] occurs. *)
Fixpoint before_last (c : ascii) (s : string) : option string :=
  match s with
  | EmptyString => None
  | String a r =>
      match before_last c r with
      | Some p => Some (String a p)
      | None => if decide (a = c) then Some EmptyString else None
      end
  end.

(** The characters of [s]. *)
Fixpoint chars (s : string) : list ascii :=
  match s with
  | EmptyString => []
  | String a r => a :: chars r
  end.

(** The spec's reading of a display name: the filename minus its final
    extension, that is, without its last full stop and what follows it. *)
Definition strip_final_extension (s : string) : string :=
  default s (before_last "." s).

End JsString.

(** ** The data model of [src/types.ts] *)
Module Types.

Inductive ProcessingStatus := IDLE | PROCESSING | COMPLETED | ERROR.

Inductive FileStatus := pending | processing | completed | error.

(** A browser [File] (its name and bytes) extended with the two optional
    fields of [FileWithPreview]. *)
Record FileWithPreview := mkFile {
  name : string;
  content : list Byte.byte;
  preview : option string;
  status : option FileStatus
}.

(** [quadrants] holds base64 data URLs. *)
Record ProcessedImage := mkProcessed {
  id : string;
  originalName : string;
  quadrants : list string
}.

End Types.

(** ** The archive writer

    [downloadZip] reaches the archive library through the global
    [window.JSZip]; the library is not part of the repository.  The model
    keeps what the packager can observe of it: the table [files] of the
    archive, from entry path to entry, which all folder handles of one
    archive share, and the two calls the packager makes.  It follows JSZip
    3.x, where [createFolders] defaults to [true]. *)
Module Zip.

Definition Blob := list Byte.byte.

Inductive ZipObject := Dir | Data (blob : Blob).

Definition is_dir (o : ZipObject) : bool :=
  match o with Dir => true | Data _ => false end.

(** [path.slice(-1) === "/"] *)
Fixpoint ends_with_slash (path : string) : bool :=
  match path with
  | EmptyString => false
  | String c EmptyString => bool_decide (c = "/"%char)
  | String _ r => ends_with_slash r
  end.

Fixpoint drop_last (path : string) : string :=
  match path with
  | EmptyString => EmptyString
  | String _ EmptyString => EmptyString
  | String c r => String c (drop_last r)
  end.

Definition forceTrailingSlash (path : string) : string :=
  if ends_with_slash path then path else path +:+ "/".

(** The directory part of [path], or the empty string at the top level. *)
Definition parentFolder (path : string) : string :=
  let path := if ends_with_slash path then drop_last path else path in
  default EmptyString (JsString.before_last "/" path).

(** [folderAdd]: make sure the directory [name] exists, creating its
    missing ancestors first.  Every step up the hierarchy shortens the path,
    so [fuel] equal to the length of [name] is never exhausted. *)
Fixpoint folderAdd (fuel : nat) (name : string) (files : gmap string ZipObject)
  : gmap string ZipObject :=
  let name := forceTrailingSlash name in
  match files !! name with
  | Some _ => files
  | None =>
      let parent := parentFolder name in
      let files :=
        match fuel with
        | S fuel' =>
            if decide (parent = EmptyString) then files else folderAdd fuel' parent files
        | O => files
        end in
      <[name := Dir]> files
  end.

(** [fileAdd] for a regular file. *)
Definition fileAdd (name : string) (data : Blob) (files : gmap string ZipObject)
  : gmap string ZipObject :=
  let parent := parentFolder name in
  let files :=
    if decide (parent = EmptyString) then files
    else folderAdd (String.length parent) parent files in
  <[name := Data data]> files.

(** [handle.folder(arg)] on the handle rooted at [root]: the new table and
    the root of the returned handle.  An empty [arg] returns the handle
    itself and creates nothing. *)
Definition folder (root arg : string) (files : gmap string ZipObject)
  : gmap string ZipObject * string :=
  if decide (arg = EmptyString) then (files, root)
  else
    let name := root +:+ arg in
    (folderAdd (String.length name) name files, forceTrailingSlash name).

(** [handle.file(name, data)] on the handle rooted at [root]. *)
Definition file (root name : string) (data : Blob) (files : gmap string ZipObject)
  : gmap string ZipObject :=
  fileAdd (root +:+ name) data files.

(** [path.startsWith(pre)] *)
Fixpoint starts_with (pre path : string) : bool :=
  match pre, path with
  | EmptyString, _ => true
  | String a pre', String b path' => bool_decide (a = b) && starts_with pre' path'
  | String _ _, EmptyString => false
  end.

(** No path separator occurs in [s]. *)
Definition slash_free (s : string) : Prop := "/"%char ∉ JsString.chars s.

(** A name that makes one top-level folder: not empty, no separator. *)
Definition good_name (s : string) : Prop := s ≠ EmptyString ∧ slash_free s.

(** The table with the top-level directory [n] in it. *)
Definition ensure_dir (n : string) (files : gmap string ZipObject) : gmap string ZipObject :=
  match files !! (n +:+ "/") with
  | Some _ => files
  | None => <[n +:+ "/" := Dir]> files
  end.

(** The first component of a path. *)
Definition top_folder (path : string) : string :=
  JsString.first_piece (JsString.split "/" path).

(** The directory entries and the file entries of an archive. *)
Definition folders (files : gmap string ZipObject) : gmap string ZipObject :=
  filter (λ kv, is_dir kv.2 = true) files.
Definition regular_files (files : gmap string ZipObject) : gmap string ZipObject :=
  filter (λ kv, is_dir kv.2 = false) files.

End Zip.

(** ** The component of [src/App.tsx] *)
Module App.

(** A thrown JavaScript value, kept as its message. *)
Definition JsError := string.

Inductive Result (A : Type) := Ok (a : A) | Throw (e : JsError).
Arguments Ok {A} a.
Arguments Throw {A} e.

(** What the handlers call but the repository's sources do not define.
    [splitImageIntoFour] and [dataURLtoBlob] come from
    [./utils/imageHelpers]; the first resolves to the data URLs of the
    quadrants or rejects, the second is taken to return a blob for every
    data URL.  [random_id k] is the value of
    [Math.random().toString(36).substr(2, 9)] at its [k]-th evaluation. *)
Class Platform := {
  splitImageIntoFour : Types.FileWithPreview → Result (list string);
  dataURLtoBlob : string → Zip.Blob;
  random_id : nat → string
}.

(** The effects a handler has on its surroundings, in the order they occur. *)
Inductive Event :=
| EvSetStatus (s : Types.ProcessingStatus)
| EvSetProcessed (rs : list Types.ProcessedImage)
| EvSetProgress (p : float)
| EvSplit (f : Types.FileWithPreview)
| EvConsoleError (e : JsError)
| EvAlert (msg : string)
| EvDownload (filename : string) (archive : gmap string Zip.ZipObject).

(** The four pieces of component state, and the surroundings: whether
    [window.JSZip] is there, the clock, how many random identifiers have
    been drawn, and the effects so far. *)
Record World := mkWorld {
  files : list Types.FileWithPreview;
  processed : list Types.ProcessedImage;
  status : Types.ProcessingStatus;
  progress : float;
  JSZip_loaded : bool;
  now : Z;
  draws : nat;
  log : list Event
}.

Definition emit (e : Event) (w : World) : World :=
  mkWorld (files w) (processed w) (status w) (progress w)
          (JSZip_loaded w) (now w) (draws w) (log w ++ [e]).

(** Computations over a state [St] that return or throw. *)
Definition M (St A : Type) : Type := St → Result A * St.

#[global] Instance M_ret {St} : MRet (M St) := λ A a s, (Ok a, s).

#[global] Instance M_bind {St} : MBind (M St) := λ A B k m s,
  match m s with
  | (Ok a, s') => k a s'
  | (Throw e, s') => (Throw e, s')
  end.

(** [try { m } catch (error) { h error }] *)
Definition try_catch {St A} (m : M St A) (h : JsError → M St A) : M St A := λ s,
  match m s with
  | (Throw e, s') => h e s'
  | r => r
  end.

(** [for (let i = start; i < arr.length; i++) body(i, arr[i])] over an array
    that the body leaves alone, [start] being the index of the head of [arr];
    also [arr.forEach((x, i) => body(i, x))]. *)
Fixpoint for_each {St A} (i : nat) (arr : list A) (body : nat → A → M St unit) : M St unit :=
  match arr with
  | [] => mret tt
  | x :: rest => body i x ;; for_each (S i) rest body
  end.

(** A handler's local variable of type [L] next to the world. *)
Definition lift {L A} (m : M World A) : M (World * L) A := λ s,
  let '(r, w') := m s.1 in (r, (w', s.2)).

Definition with_local {L A} (init : L) (m : M (World * L) A) : M World L := λ w,
  match m (w, init) with
  | (Ok _, (w', l)) => (Ok l, w')
  | (Throw e, (w', _)) => (Throw e, w')
  end.

(** [results.push(r)] *)
Definition push (r : Types.ProcessedImage) : M (World * list Types.ProcessedImage) unit :=
  λ s, (Ok tt, (s.1, s.2 ++ [r])).

Definition setStatus (st : Types.ProcessingStatus) : M World unit := λ w,
  (Ok tt, emit (EvSetStatus st)
            (mkWorld (files w) (processed w) st (progress w)
                     (JSZip_loaded w) (now w) (draws w) (log w))).

Definition setProcessed (rs : list Types.ProcessedImage) : M World unit := λ w,
  (Ok tt, emit (EvSetProcessed rs)
            (mkWorld (files w) rs (status w) (progress w)
                     (JSZip_loaded w) (now w) (draws w) (log w))).

Definition setProgress (p : float) : M World unit := λ w,
  (Ok tt, emit (EvSetProgress p)
            (mkWorld (files w) (processed w) (status w) p
                     (JSZip_loaded w) (now w) (draws w) (log w))).

Definition console_error (e : JsError) : M World unit := λ w,
  (Ok tt, emit (EvConsoleError e) w).

Definition alert (msg : string) : M World unit := λ w,
  (Ok tt, emit (EvAlert msg) w).

Section Handlers.
Context `{Platform}.

(** [await splitImageIntoFour(file)] *)
Definition await_split (f : Types.FileWithPreview) : M World (list string) := λ w,
  (splitImageIntoFour f, emit (EvSplit f) w).

(** [Math.random().toString(36).substr(2, 9)] *)
Definition draw_id : M World string := λ w,
  (Ok (random_id (draws w)),
   mkWorld (files w) (processed w) (status w) (progress w)
           (JSZip_loaded w) (now w) (S (draws w)) (log w)).

(** The body of the loop of [processImages], over [n] files. *)
Definition process_one (n i : nat) (file : Types.FileWithPreview)
  : M (World * list Types.ProcessedImage) unit :=
  try_catch
    (quadrants ← lift (await_split file);
     id ← lift draw_id;
     push (Types.mkProcessed id
             (JsString.first_piece (JsString.split "." (Types.name file)))
             quadrants) ;;
     lift (setProgress (JsNumber.progress_at i n)))
    (λ error, lift (console_error error)).

Definition processImages : M World unit := λ w,
  let files := files w in
  if decide (length files = 0) then (Ok tt, w)
  else
    (setStatus Types.PROCESSING ;;
     setProcessed [] ;;
     setProgress (JsNumber.of_nat 0) ;;
     results ← with_local [] (for_each 0 files (process_one (length files))) ;
     setProcessed results ;;
     setStatus Types.COMPLETED) w.

(** [arr.forEach((x, idx) => ...)] threading the archive's table. *)
Fixpoint fold_indexed {A B} (f : B → nat → A → B) (i : nat) (arr : list A) (b : B) : B :=
  match arr with
  | [] => b
  | x :: rest => fold_indexed f (S i) rest (f b i x)
  end.

(** The name of the file that receives quadrant [idx] of the result [name]. *)
Definition quad_file_name (name : string) (idx : nat) : string :=
  name +:+ "_quad_" +:+ pretty (idx + 1) +:+ ".png".

(** The path [{folder}/{folder}_quad_{idx + 1}.png]. *)
Definition entry_path (name : string) (idx : nat) : string :=
  name +:+ "/" +:+ quad_file_name name idx.

(** One round of the outer [forEach] of [downloadZip]. *)
Definition zip_item (archive : gmap string Zip.ZipObject) (item : Types.ProcessedImage)
  : gmap string Zip.ZipObject :=
  let '(archive, root) := Zip.folder "" (Types.originalName item) archive in
  fold_indexed
    (λ archive idx dataUrl,
       Zip.file root (quad_file_name (Types.originalName item) idx)
                (dataURLtoBlob dataUrl) archive)
    0 (Types.quadrants item) archive.

(** The inner [forEach] from index [idx] on, as insertions into the table. *)
Definition insert_quadrants (name : string) (idx : nat) (dataUrls : list string)
    (archive : gmap string Zip.ZipObject) : gmap string Zip.ZipObject :=
  fold_indexed
    (λ archive k dataUrl, <[entry_path name k := Zip.Data (dataURLtoBlob dataUrl)]> archive)
    idx dataUrls archive.

(** The archive [downloadZip] builds from the processed results. *)
Definition build_archive (items : list Types.ProcessedImage) : gmap string Zip.ZipObject :=
  foldl zip_item ∅ items.

Definition downloadZip : M World unit := λ w,
  if negb (JSZip_loaded w)
  then alert "JSZip library not loaded yet. Please refresh." w
  else
    (Ok tt,
     emit (EvDownload ("quadsplit_images_" +:+ pretty (now w) +:+ ".zip")
                      (build_archive (processed w))) w).

End Handlers.

End App.

(** ** Reading a run off its effects *)
Module Run.
Import App.

(** The status transitions that the events [evs] cause from status [cur]. *)
Fixpoint transitions (cur : Types.ProcessingStatus) (evs : list Event)
  : list (Types.ProcessingStatus * Types.ProcessingStatus) :=
  match evs with
  | [] => []
  | EvSetStatus s :: rest => (cur, s) :: transitions s rest
  | _ :: rest => transitions cur rest
  end.

(** The images handed to the splitter, in order. *)
Fixpoint attempted (evs : list Event) : list Types.FileWithPreview :=
  match evs with
  | [] => []
  | EvSplit f :: rest => f :: attempted rest
  | _ :: rest => attempted rest
  end.

(** The values written to the progress counter, in order. *)
Fixpoint progress_writes (evs : list Event) : list float :=
  match evs with
  | [] => []
  | EvSetProgress p :: rest => p :: progress_writes rest
  | _ :: rest => progress_writes rest
  end.

(** The archives handed to the browser for download. *)
Fixpoint downloads (evs : list Event) : list (gmap string Zip.ZipObject) :=
  match evs with
  | [] => []
  | EvDownload _ archive :: rest => archive :: downloads rest
  | _ :: rest => downloads rest
  end.

Section Results.
Context `{Platform}.

(** The results of a batch as a fold of the splitter over the inputs: one
    result per image that splits, carrying the next identifier drawn. *)
Fixpoint results_from (d : nat) (inputs : list Types.FileWithPreview)
  : list Types.ProcessedImage :=
  match inputs with
  | [] => []
  | f :: rest =>
      match splitImageIntoFour f with
      | Ok quadrants =>
          Types.mkProcessed (random_id d)
            (JsString.first_piece (JsString.split "." (Types.name f))) quadrants
          :: results_from (S d) rest
      | Throw _ => results_from d rest
      end
  end.

(** Result [r] is the result of input [f]. *)
Definition result_of (r : Types.ProcessedImage) (f : Types.FileWithPreview) : Prop :=
  Types.originalName r = JsString.first_piece (JsString.split "." (Types.name f))
  ∧ splitImageIntoFour f = Ok (Types.quadrants r).

End Results.
End Run.

(** ** Sample inputs *)
Module Fixtures.
Import App.

(** An image that decodes, and one with no bytes at all. *)
Definition image (name : string) : Types.FileWithPreview :=
  Types.mkFile name [Byte.x89; Byte.x50; Byte.x4e; Byte.x47] None (Some Types.pending).
Definition corrupt (name : string) : Types.FileWithPreview :=
  Types.mkFile name [] None (Some Types.pending).

Definition sample_split (f : Types.FileWithPreview) : Result (list string) :=
  match Types.content f with
  | [] => Throw "The image could not be decoded"
  | _ => Ok ((λ k : nat, "data:image/png;base64," +:+ Types.name f +:+ pretty k)
               <$> [0; 1; 2; 3])
  end.

(** A platform whose random identifiers never repeat. *)
Definition counting : Platform :=
  {| splitImageIntoFour := sample_split;
     dataURLtoBlob := String.list_byte_of_string;
     random_id := λ k, "id" +:+ pretty k |}.


(** The component as first rendered, with [inputs] selected. *)
Definition fresh (inputs : list Types.FileWithPreview) (loaded : bool) : World :=
  mkWorld inputs [] Types.IDLE (JsNumber.of_nat 0) loaded 1700000000000 0 [].

(** The state that a first run over two images, the second of which does
    not decode, leaves behind: the state in which "Process Again" starts
    the next run. *)
Definition processed_once : World :=
  (@processImages counting (fresh [image "a.png"; corrupt "b.png"] true)).2.

End Fixtures.

(** ** The rest of the component

    [handleFileChange], [removeFile] and [clearAll] manage the list of
    selected files and the object URLs of their previews.  The page adds to
    the world the object URLs that [URL.createObjectURL] has handed out and
    [URL.revokeObjectURL] has not yet taken back.  Every handler is run to
    its end before the next one starts. *)
Module Shell.
Import App.

(** [URL.createObjectURL]: [object_url k] is the URL returned by the [k]-th
    call on this page.  A blob URL carries a fresh UUID, so no two calls
    return the same URL, and it is never the empty string. *)
Class Browser := {
  object_url : nat → string;
  object_url_inj : Inj (=) (=) object_url;
  object_url_nonempty : ∀ k, object_url k ≠ EmptyString
}.

Record Page := mkPage {
  world : World;
  live_urls : gset string;
  url_count : nat
}.

(** A computation on the component state, run on the page. *)
Definition on_world {A} (m : M World A) : M Page A := λ pg,
  let '(r, w') := m (world pg) in (r, mkPage w' (live_urls pg) (url_count pg)).

(** [setFiles(fs)]; the list of effects does not record the file list. *)
Definition setFiles (fs : list Types.FileWithPreview) : M World unit := λ w,
  (Ok tt, mkWorld fs (processed w) (status w) (progress w)
                  (JSZip_loaded w) (now w) (draws w) (log w)).

(** [setFiles(prev => update(prev))] *)
Definition updateFiles (update : list Types.FileWithPreview → list Types.FileWithPreview)
  : M World unit := λ w, setFiles (update (files w)) w.

Definition revokeObjectURL (url : string) : M Page unit := λ pg,
  (Ok tt, mkPage (world pg) (live_urls pg ∖ {[url]}) (url_count pg)).

(** The value of [f.preview] when it is truthy: present and not empty. *)
Definition truthy (preview : option string) : option string :=
  match preview with
  | Some url => if decide (url = EmptyString) then None else Some url
  | None => None
  end.

(** [f.preview && URL.revokeObjectURL(f.preview)] *)
Definition revoke_preview (f : Types.FileWithPreview) : M Page unit :=
  match truthy (Types.preview f) with
  | Some url => revokeObjectURL url
  | None => mret tt
  end.

(** [Object.assign(file, { preview, status: 'pending' })] *)
Definition assign_preview (file : Types.FileWithPreview) (url : string)
  : Types.FileWithPreview :=
  Types.mkFile (Types.name file) (Types.content file) (Some url) (Some Types.pending).

Section Handlers.
Context `{Browser}.

Definition createObjectURL : M Page string := λ pg,
  let url := object_url (url_count pg) in
  (Ok url, mkPage (world pg) ({[url]} ∪ live_urls pg) (S (url_count pg))).

(** [Array.from(e.target.files).map(file => Object.assign(file, ...))] *)
Fixpoint with_previews (selected : list Types.FileWithPreview)
  : M Page (list Types.FileWithPreview) :=
  match selected with
  | [] => mret []
  | file :: rest =>
      url ← createObjectURL;
      rest' ← with_previews rest;
      mret (assign_preview file url :: rest')
  end.

(** The selected files with the previews they get when the next object URL
    to be handed out is the one numbered [c]. *)
Fixpoint labelled (c : nat) (selected : list Types.FileWithPreview)
  : list Types.FileWithPreview :=
  match selected with
  | [] => []
  | file :: rest => assign_preview file (object_url c) :: labelled (S c) rest
  end.

(** [handleFileChange], on the value of [e.target.files], which is [null]
    for an input without a file list. *)
Definition handleFileChange (target_files : option (list Types.FileWithPreview))
  : M Page unit :=
  match target_files with
  | None => mret tt
  | Some selected =>
      newFiles ← with_previews selected;
      on_world (updateFiles (λ prev, prev ++ newFiles))
  end.

(** [removeFile].  Past the end of the list [newFiles[index]] is
    [undefined], and reading [preview] off it throws. *)
Definition removeFile (index : nat) : M Page unit := λ pg,
  let newFiles := files (world pg) in
  match newFiles !! index with
  | None => (Throw "TypeError: Cannot read properties of undefined", pg)
  | Some f => (revoke_preview f ;; on_world (setFiles (delete index newFiles))) pg
  end.

Definition clearAll : M Page unit := λ pg,
  (for_each 0 (files (world pg)) (λ _ f, revoke_preview f) ;;
   on_world (setFiles []) ;;
   on_world (setProcessed []) ;;
   on_world (setStatus Types.IDLE) ;;
   on_world (setProgress (JsNumber.of_nat 0))) pg.

Context `{Platform}.

(** [processImages] touches no object URL. *)
Definition processImagesPage : M Page unit := on_world processImages.

(** [downloadZip] with its object URL: created for the archive once it is
    built, revoked after the click on the link. *)
Definition downloadZipPage : M Page unit := λ pg,
  if negb (JSZip_loaded (world pg)) then on_world downloadZip pg
  else (url ← createObjectURL; on_world downloadZip ;; revokeObjectURL url) pg.

(** One handler call, or the surroundings moving on: the clock advancing,
    the archive library arriving. *)
Inductive step : Page → Page → Prop :=
| step_handleFileChange target_files pg :
    step pg (handleFileChange target_files pg).2
| step_removeFile index pg :
    step pg (removeFile index pg).2
| step_clearAll pg :
    step pg (clearAll pg).2
| step_processImages pg :
    step pg (processImagesPage pg).2
| step_downloadZip pg :
    step pg (downloadZipPage pg).2
| step_surroundings loaded time pg :
    step pg (mkPage (mkWorld (files (world pg)) (processed (world pg)) (status (world pg))
                             (progress (world pg)) loaded time (draws (world pg))
                             (log (world pg)))
                    (live_urls pg) (url_count pg)).

(** The component as first rendered: the initial values of the four
    [useState] calls, and no object URL. *)
Definition initial (loaded : bool) (time : Z) (seed : nat) : Page :=
  mkPage (mkWorld [] [] Types.IDLE (JsNumber.of_nat 0) loaded time seed []) ∅ 0.

Inductive reachable : Page → Prop :=
| reachable_initial loaded time seed : reachable (initial loaded time seed)
| reachable_step pg pg' : reachable pg → step pg pg' → reachable pg'.

End Handlers.

(** The previews of the selected files that are set. *)
Definition previews (fs : list Types.FileWithPreview) : list string :=
  omap Types.preview fs.

(** No object URL is leaked and no preview dangles: every selected file has
    a preview, the previews are pairwise different URLs handed out on this
    page, and they are all the URLs still alive. *)
Definition urls_balanced `{Browser} (pg : Page) : Prop :=
  Forall (λ f, ∃ k, k < url_count pg ∧ Types.preview f = Some (object_url k))
         (files (world pg))
  ∧ NoDup (previews (files (world pg)))
  ∧ live_urls pg = list_to_set (previews (files (world pg))).

(** Between two handler calls no run is under way, and results and progress
    exist only once a run has completed. *)
Definition at_rest (w : World) : Prop :=
  (status w = Types.IDLE ∨ status w = Types.COMPLETED)
  ∧ (status w = Types.IDLE → processed w = [] ∧ progress w = JsNumber.of_nat 0).

End Shell.

(** ** What the markup shows *)
Module View.
Import App.

Definition status_eqb (a b : Types.ProcessingStatus) : bool :=
  match a, b with
  | Types.IDLE, Types.IDLE | Types.PROCESSING, Types.PROCESSING
  | Types.COMPLETED, Types.COMPLETED | Types.ERROR, Types.ERROR => true
  | _, _ => false
  end.

(** [files.length > 0 && (...)]: the action bar. *)
Definition action_bar_shown (w : World) : bool := 0 <? length (files w).

(** The progress bar, inside the action bar. *)
Definition progress_bar_shown (w : World) : bool :=
  action_bar_shown w && status_eqb (status w) Types.PROCESSING.

(** The download button, inside the action bar. *)
Definition download_button_shown (w : World) : bool :=
  action_bar_shown w && status_eqb (status w) Types.COMPLETED.

(** The number in [Download ZIP ({processed.length * 4} Images)]. *)
Definition download_button_count (w : World) : nat := length (processed w) * 4.

(** [disabled={status === ProcessingStatus.PROCESSING}] on the process button. *)
Definition process_button_disabled (w : World) : bool :=
  status_eqb (status w) Types.PROCESSING.

Definition process_button_label (w : World) : string :=
  if status_eqb (status w) Types.COMPLETED then "Process Again" else "Split Images Now".

End View.

(** ** The progress counter over a run *)
Module Progress.
Import App.

(** The natural number that the number [x] is, if it is one below [2^53]:
    the candidate is read off the mantissa and the exponent of [x] and kept
    if converting it back gives [x] itself. *)
Definition integer_of (x : float) : option nat :=
  let k :=
    match Prim2SF x with
    | S754_finite false m e =>
        Z.to_nat (if (0 <=? e)%Z then Z.shiftl (Z.pos m) e else Z.shiftr (Z.pos m) (- e))
    | _ => 0
    end in
  if PrimFloat.Leibniz.eqb x (JsNumber.of_nat k) then Some k else None.

(** The whole percentage between 0 and 100 that [x] is, if it is one. *)
Definition percent_of (x : float) : option nat :=
  match integer_of x with
  | Some k => if k <=? 100 then Some k else None
  | None => None
  end.

(** The whole percentage written at index [i] of a batch of [n] files,
    with 0 standing in where the value written is not one. *)
Definition percent_at (i n : nat) : nat :=
  default 0 (percent_of (JsNumber.progress_at i n)).

(** Is [ks] a list of whole percentages that never goes down? *)
Fixpoint climbing (ks : list (option nat)) : bool :=
  match ks with
  | Some a :: ((Some b :: _) as rest) => (a <=? b) && climbing rest
  | [Some _] => true
  | [] => true
  | _ => false
  end.

(** The counter values that the loop can write over a batch of [n] files. *)
Definition row (n : nat) : list (option nat) :=
  (λ i, percent_of (JsNumber.progress_at i n)) <$> seq 0 n.

(** Up to [bound] files, the values of each batch size are whole
    percentages that never go down from one index to the next. *)
Definition rows_climb (bound : nat) : bool :=
  forallb (λ n, climbing (row n)) (seq 0 (S bound)).

(** Up to [bound] files, the value at the last index is 100. *)
Definition rows_end_at_100 (bound : nat) : bool :=
  forallb (λ n, PrimFloat.Leibniz.eqb (JsNumber.progress_at (n - 1) n) (JsNumber.of_nat 100))
          (seq 1 bound).

Section Loop.
Context `{Platform}.

(** Does the splitter resolve for [f]? *)
Definition splits (f : Types.FileWithPreview) : bool :=
  match splitImageIntoFour f with Ok _ => true | Throw _ => false end.

(** The indices, counted from [i], of the inputs that split. *)
Fixpoint split_indices (i : nat) (inputs : list Types.FileWithPreview) : list nat :=
  match inputs with
  | [] => []
  | f :: rest => if splits f then i :: split_indices (S i) rest else split_indices (S i) rest
  end.

(** The effects of the loop of [processImages] over [inputs], the first of
    them at index [i] of a batch of [n] files. *)
Fixpoint loop_events (n i : nat) (inputs : list Types.FileWithPreview) : list Event :=
  match inputs with
  | [] => []
  | f :: rest =>
      match splitImageIntoFour f with
      | Ok _ => EvSplit f :: EvSetProgress (JsNumber.progress_at i n) :: loop_events n (S i) rest
      | Throw e => EvSplit f :: EvConsoleError e :: loop_events n (S i) rest
      end
  end.

(** The progress counter after the loop over [inputs], from the value [p]. *)
Fixpoint progress_after (n i : nat) (inputs : list Types.FileWithPreview) (p : float)
  : float :=
  match inputs with
  | [] => p
  | f :: rest =>
      progress_after n (S i) rest (if splits f then JsNumber.progress_at i n else p)
  end.

End Loop.
End Progress.

(** ** More sample inputs *)
Module Samples.
Import App.

(** Object URLs numbered in the order they are handed out. *)
Definition blob_url (k : nat) : string := "blob:" +:+ pretty k.

Definition numbered : Shell.Browser :=
  {| Shell.object_url := blob_url;
     Shell.object_url_inj :=
       ltac:(intros a b E; unfold blob_url in E;
             by apply (String.app_inj "blob:"), (inj pretty) in E);
     Shell.object_url_nonempty := ltac:(intros k; unfold blob_url; discriminate) |}.

(** A file as the file input delivers it, before any preview is attached. *)
Definition picked (name : string) : Types.FileWithPreview :=
  Types.mkFile name [Byte.x89; Byte.x50; Byte.x4e; Byte.x47] None None.

(** The page after [a.png] and [b.png] have been selected. *)
Definition two_selected : Shell.Page :=
  (@Shell.handleFileChange numbered (Some [picked "a.png"; picked "b.png"])
     (Shell.initial true 1700000000000 0)).2.

End Samples.

(** ** Facts about the quadrant geometry *)
Section RasterFacts.
Context {Pixel : Type}.

Lemma beside_crop_row (w : nat) (rows : list (list Pixel)) :
  zip_with app ((λ row, take w (drop 0 row)) <$> rows)
               ((λ row, take (length row - w) (drop w row)) <$> rows) = rows.
Proof.
  induction rows as [|row rows IH]; [done|].
  rewrite !fmap_cons. cbn [zip_with]. rewrite IH. f_equal.
  rewrite drop_0, (take_ge (drop w row)) by (rewrite length_drop; lia).
  apply take_drop.
Qed.

Lemma crop_pair_row (W x w : nat) (rows : list (list Pixel)) :
  Forall (λ row, length row = W) rows →
  (λ row, take (W - w) (drop x row)) <$> rows
  = (λ row, take (length row - w) (drop x row)) <$> rows.
Proof.
  induction 1 as [|row rows Hrow _ IH]; [done|].
  by rewrite !fmap_cons, IH, Hrow.
Qed.

Lemma crop_well_formed (W H : nat) (r : ImageHelpers.Rect) (img : list (list Pixel)) :
  ImageHelpers.well_formed W H img →
  ImageHelpers.rx r + ImageHelpers.rw r ≤ W →
  ImageHelpers.ry r + ImageHelpers.rh r ≤ H →
  ImageHelpers.well_formed (ImageHelpers.rw r) (ImageHelpers.rh r) (ImageHelpers.crop r img).
Proof.
  intros [Hlen Hrows] Hx Hy. unfold ImageHelpers.crop. split.
  - rewrite length_fmap, length_take, length_drop. lia.
  - apply Forall_fmap, Forall_take, Forall_drop.
    eapply Forall_impl; [exact Hrows|]. intros row Hrow. simpl in *.
    rewrite length_take, length_drop, Hrow. lia.
Qed.

Lemma reassemble_crops (W H : nat) (img : list (list Pixel)) :
  ImageHelpers.well_formed W H img →
  ImageHelpers.reassemble (ImageHelpers.splitImageIntoFour W H img) = img.
Proof.
  intros [Hlen Hrows]. unfold ImageHelpers.splitImageIntoFour.
  unfold ImageHelpers.quadrantRects, ImageHelpers.reassemble, ImageHelpers.above,
    ImageHelpers.beside, ImageHelpers.crop.
  cbn [fmap list_fmap ImageHelpers.rx ImageHelpers.ry ImageHelpers.rw ImageHelpers.rh].
  rewrite (crop_pair_row W (W / 2) (W / 2) (take (H / 2) (drop 0 img)))
    by (by apply Forall_take, Forall_drop).
  rewrite (crop_pair_row W (W / 2) (W / 2) (take (H - H / 2) (drop (H / 2) img)))
    by (by apply Forall_take, Forall_drop).
  rewrite !beside_crop_row, drop_0.
  rewrite (take_ge (drop (H / 2) img)) by (rewrite length_drop; lia).
  apply take_drop.
Qed.
End RasterFacts.

(** C1 (quadrant tiling).  For an image of width [W] and height [H], both at
    least 2, the splitter's four crop rectangles are, in row-major order,
    top-left [(0,0)] of size [(W/2, H/2)], top-right [(W/2,0)] of size
    [(W - W/2, H/2)], bottom-left [(0,H/2)] of size [(W/2, H - H/2)] and
    bottom-right [(W/2,H/2)] of size [(W - W/2, H - H/2)]; none is empty;
    every pixel of the image lies in exactly one of them and they cover
    nothing outside the image; their areas add up to [W * H]; the four crops
    of any [W] by [H] pixel grid have these sizes, and putting them side by
    side gives the grid back.
    Nothing depends on the parity of [W] or [H]. *)
Theorem quadrants_tile_image (W H : nat) :
  2 ≤ W → 2 ≤ H →
  ImageHelpers.quadrantRects W H
  = [ ImageHelpers.mkRect 0 0 (W / 2) (H / 2);
      ImageHelpers.mkRect (W / 2) 0 (W - W / 2) (H / 2);
      ImageHelpers.mkRect 0 (H / 2) (W / 2) (H - H / 2);
      ImageHelpers.mkRect (W / 2) (H / 2) (W - W / 2) (H - H / 2) ]
  ∧ Forall (λ r, 0 < ImageHelpers.rw r ∧ 0 < ImageHelpers.rh r)
           (ImageHelpers.quadrantRects W H)
  ∧ (∀ x y, ImageHelpers.coverage (ImageHelpers.quadrantRects W H) x y
            = if decide (x < W ∧ y < H) then 1 else 0)
  ∧ sum_list (ImageHelpers.area <$> ImageHelpers.quadrantRects W H) = W * H
  ∧ (∀ (Pixel : Type) (img : list (list Pixel)),
       ImageHelpers.well_formed W H img →
       Forall2 (λ r quadrant,
                  ImageHelpers.well_formed (ImageHelpers.rw r) (ImageHelpers.rh r) quadrant)
               (ImageHelpers.quadrantRects W H) (ImageHelpers.splitImageIntoFour W H img)
       ∧ ImageHelpers.reassemble (ImageHelpers.splitImageIntoFour W H img) = img).
Proof.
  intros HW HH.
  assert (HW2 : 0 < W / 2 ∧ W / 2 < W) by (split; [apply Nat.div_str_pos|apply Nat.div_lt]; lia).
  assert (HH2 : 0 < H / 2 ∧ H / 2 < H) by (split; [apply Nat.div_str_pos|apply Nat.div_lt]; lia).
  split; [reflexivity|].
  split; [|split; [|split; [|intros Pixel img Himg; split; [|by apply reassemble_crops]]]];
    unfold ImageHelpers.splitImageIntoFour, ImageHelpers.quadrantRects; cbv zeta;
    generalize dependent (W / 2); generalize dependent (H / 2); intros hh Hhh hw Hhw.
  - repeat apply Forall_cons_2; try apply Forall_nil_2;
      cbn [ImageHelpers.rw ImageHelpers.rh]; lia.
  - intros x y. unfold ImageHelpers.coverage, ImageHelpers.covers.
    cbn [fmap list_fmap sum_list
         ImageHelpers.rx ImageHelpers.ry ImageHelpers.rw ImageHelpers.rh].
    destruct (Nat.leb_spec hw x), (Nat.leb_spec hh y), (Nat.leb_spec 0 x), (Nat.leb_spec 0 y),
      (Nat.ltb_spec x (0 + hw)), (Nat.ltb_spec y (0 + hh)),
      (Nat.ltb_spec x (hw + (W - hw))), (Nat.ltb_spec y (hh + (H - hh)));
      try lia; cbn [andb]; case_decide; (reflexivity || lia).
  - unfold ImageHelpers.area. cbn [fmap list_fmap ImageHelpers.rw ImageHelpers.rh].
    unfold sum_list, sum_list_with, id.
    remember (W - hw) as a eqn:Ea. remember (H - hh) as b eqn:Eb.
    assert (EW : W = hw + a) by lia. assert (EH : H = hh + b) by lia.
    rewrite EW, EH. lia.
  - rewrite !fmap_cons, fmap_nil.
    repeat apply Forall2_cons_2; try apply Forall2_nil_2;
      apply (crop_well_formed W H); try done;
      cbn [ImageHelpers.rx ImageHelpers.ry ImageHelpers.rw ImageHelpers.rh]; lia.
Qed.

(** The 801 by 601 example of the specification. *)
Lemma quadrants_tile_image_witness :
  2 ≤ 801 ∧ 2 ≤ 601 ∧
  ImageHelpers.quadrantRects 801 601
  = [ ImageHelpers.mkRect 0 0 400 300; ImageHelpers.mkRect 400 0 401 300;
      ImageHelpers.mkRect 0 300 400 301; ImageHelpers.mkRect 400 300 401 301 ].
Proof.
  assert (H1 : 2 ≤ 801) by lia. assert (H2 : 2 ≤ 601) by lia.
  split; [exact H1|]. split; [exact H2|].
  exact (proj1 (quadrants_tile_image 801 601 H1 H2)).
Defined.

(** ** Strings and paths *)

(** A string literal without a path separator. *)
Ltac literal_slash_free :=
  unfold Zip.slash_free; simpl;
  repeat (apply not_elem_of_cons; split; [discriminate|]); apply not_elem_of_nil.

Section PathFacts.

Lemma string_app_cons (c : ascii) (a b : string) : String c a +:+ b = String c (a +:+ b).
Proof. reflexivity. Qed.

Lemma string_app_nil_l (b : string) : EmptyString +:+ b = b.
Proof. reflexivity. Qed.

Lemma chars_app (a b : string) : JsString.chars (a +:+ b) = JsString.chars a ++ JsString.chars b.
Proof.
  induction a as [|c a IH]; [done|].
  rewrite string_app_cons. simpl. by rewrite IH.
Qed.

Lemma chars_inj (a b : string) : JsString.chars a = JsString.chars b → a = b.
Proof.
  revert b. induction a as [|c a IH]; intros [|d b] E; simpl in E; try done.
  simplify_eq. f_equal. by apply IH.
Qed.

Lemma string_app_assoc (a b c : string) : (a +:+ b) +:+ c = a +:+ b +:+ c.
Proof.
  induction a as [|x a IH]; [done|]. rewrite !string_app_cons. by f_equal.
Qed.

Lemma string_app_inv_tail (a b c : string) : a +:+ c = b +:+ c → a = b.
Proof.
  intros E. apply chars_inj. apply (f_equal JsString.chars) in E.
  rewrite !chars_app in E. by apply app_inv_tail in E.
Qed.

Lemma slash_free_app (a b : string) :
  Zip.slash_free (a +:+ b) ↔ Zip.slash_free a ∧ Zip.slash_free b.
Proof. unfold Zip.slash_free. rewrite chars_app, elem_of_app. tauto. Qed.

Lemma slash_free_cons (c : ascii) (s : string) :
  Zip.slash_free (String c s) ↔ c ≠ "/"%char ∧ Zip.slash_free s.
Proof.
  unfold Zip.slash_free. simpl. rewrite elem_of_cons. split.
  - intros Hn. split; [intros ->; apply Hn; by left | intros Hs; apply Hn; by right].
  - intros [Hc Hs] [E|Hin]; [by symmetry in E | done].
Qed.

Lemma ends_with_slash_app (a b : string) :
  b ≠ EmptyString → Zip.ends_with_slash (a +:+ b) = Zip.ends_with_slash b.
Proof.
  intros Hb. induction a as [|c a IH]; [done|].
  rewrite string_app_cons. simpl. rewrite <- IH. destruct (a +:+ b) eqn:E; [|done].
  destruct a, b; try done; rewrite ?string_app_cons, ?string_app_nil_l in E; congruence.
Qed.

Lemma ends_with_slash_free (s : string) :
  Zip.slash_free s → Zip.ends_with_slash s = false.
Proof.
  induction s as [|c s IH]; [done|]. intros [Hc Hs]%slash_free_cons.
  simpl. destruct s; [by apply bool_decide_eq_false | by apply IH].
Qed.

Lemma drop_last_snoc (s : string) (c : ascii) :
  Zip.drop_last (s +:+ String c EmptyString) = s.
Proof.
  induction s as [|d s IH]; [done|]. rewrite string_app_cons. simpl. rewrite IH.
  by destruct s.
Qed.

Lemma before_last_slash_free (s : string) :
  Zip.slash_free s → JsString.before_last "/" s = None.
Proof.
  induction s as [|c s IH]; [done|]. intros [Hc Hs]%slash_free_cons.
  simpl. rewrite IH by done. by rewrite decide_False.
Qed.

Lemma before_last_app_slash (n f : string) :
  Zip.slash_free f → JsString.before_last "/" (n +:+ "/" +:+ f) = Some n.
Proof.
  intros Hf. induction n as [|c n IH].
  - change (EmptyString +:+ "/" +:+ f) with (String "/" f). simpl.
    by rewrite before_last_slash_free.
  - rewrite (string_app_cons c n). simpl. by rewrite IH.
Qed.

Lemma forceTrailingSlash_free (n : string) :
  Zip.slash_free n → Zip.forceTrailingSlash n = n +:+ "/".
Proof. intros Hn. unfold Zip.forceTrailingSlash. by rewrite ends_with_slash_free. Qed.

Lemma parentFolder_top (n : string) :
  Zip.slash_free n → Zip.parentFolder (n +:+ "/") = EmptyString.
Proof.
  intros Hn. unfold Zip.parentFolder.
  rewrite ends_with_slash_app by done. cbn [Zip.ends_with_slash bool_decide decide_rel].
  rewrite bool_decide_eq_true_2 by done.
  by rewrite drop_last_snoc, before_last_slash_free.
Qed.

Lemma parentFolder_in_folder (n f : string) :
  Zip.slash_free f → f ≠ EmptyString → Zip.parentFolder (n +:+ "/" +:+ f) = n.
Proof.
  intros Hf Hne. unfold Zip.parentFolder.
  rewrite ends_with_slash_app by (by destruct f).
  change (Zip.ends_with_slash ("/" +:+ f)) with (Zip.ends_with_slash (String "/" f)).
  replace (Zip.ends_with_slash (String "/" f)) with false.
  - by rewrite before_last_app_slash.
  - symmetry. destruct f as [|a f]; [done|].
    change (Zip.ends_with_slash (String a f) = false). by apply ends_with_slash_free.
Qed.

Lemma top_folder_in_folder (n rest : string) :
  Zip.slash_free n → Zip.top_folder (n +:+ "/" +:+ rest) = n.
Proof.
  unfold Zip.top_folder. induction n as [|c n IH]; [done|].
  intros [Hc Hn]%slash_free_cons. specialize (IH Hn).
  rewrite (string_app_cons c n). simpl. rewrite decide_False by done.
  destruct (JsString.split "/" (n +:+ "/" +:+ rest)) as [|piece pieces]; simpl in *.
  - by rewrite <- IH.
  - by rewrite <- IH.
Qed.

Lemma starts_with_top_folder (n p : string) :
  Zip.slash_free n → Zip.starts_with (n +:+ "/") p = true → Zip.top_folder p = n.
Proof.
  intros Hn Hp.
  assert (∃ rest, p = n +:+ "/" +:+ rest) as [rest ->].
  { clear Hn. revert p Hp.
    induction n as [|c n IH]; intros [|d p] Hp; try done.
    - change (EmptyString +:+ "/") with (String "/" EmptyString) in Hp. simpl in Hp.
      apply andb_true_iff in Hp as [<-%bool_decide_eq_true _]. by exists p.
    - rewrite (string_app_cons c n) in Hp. simpl in Hp.
      apply andb_true_iff in Hp as [<-%bool_decide_eq_true Hp].
      destruct (IH p Hp) as [rest ->]. by exists rest. }
  by apply top_folder_in_folder.
Qed.

Lemma pretty_N_go_slash_free (x : N) (s : string) :
  Zip.slash_free s → Zip.slash_free (pretty_N_go x s).
Proof.
  revert s. induction (N.lt_wf_0 x) as [x _ IH]; intros s Hs.
  assert (x = 0 ∨ 0 < x)%N as [->|Hx] by lia; [by rewrite pretty_N_go_0|].
  rewrite pretty_N_go_step by done. apply IH.
  - apply N.div_lt; lia.
  - apply slash_free_cons. split; [|done].
    unfold pretty_N_char. by repeat case_match.
Qed.

Lemma pretty_nat_slash_free (k : nat) : Zip.slash_free (pretty k).
Proof.
  unfold pretty, pretty_nat, pretty, pretty_N. case_decide.
  - literal_slash_free.
  - apply pretty_N_go_slash_free. literal_slash_free.
Qed.

Lemma quad_file_name_slash_free (n : string) (idx : nat) :
  Zip.slash_free n → Zip.slash_free (App.quad_file_name n idx).
Proof.
  intros Hn. unfold App.quad_file_name. rewrite !slash_free_app.
  split; [done|]. split; [|split; [apply pretty_nat_slash_free|]]; literal_slash_free.
Qed.

Lemma quad_file_name_nonempty (n : string) (idx : nat) :
  App.quad_file_name n idx ≠ EmptyString.
Proof.
  unfold App.quad_file_name. intros E. apply (f_equal JsString.chars) in E.
  rewrite !chars_app in E. simpl in E. by destruct (JsString.chars n).
Qed.

Lemma quad_file_name_inj (n : string) (i j : nat) :
  App.quad_file_name n i = App.quad_file_name n j → i = j.
Proof.
  unfold App.quad_file_name. intros E.
  apply (String.app_inj n), (String.app_inj "_quad_") in E.
  apply string_app_inv_tail in E. apply (inj pretty) in E. lia.
Qed.

(** The pieces of a split are never none. *)
Lemma split_nonempty (c : ascii) (s : string) : JsString.split c s ≠ [].
Proof.
  induction s as [|a s IH]; [done|]. simpl. case_decide; [done|].
  by destruct (JsString.split c s).
Qed.

(** The first piece is the whole string when the separator does not occur. *)
Lemma first_piece_no_separator (c : ascii) (s : string) :
  c ∉ JsString.chars s →
  JsString.first_piece (JsString.split c s) = s ∧ JsString.before_last c s = None.
Proof.
  induction s as [|a s IH]; [done|]. simpl. intros [Ha Hs]%not_elem_of_cons.
  destruct (IH Hs) as [IH1 IH2]. rewrite IH2, !decide_False by done.
  split; [|done]. pose proof (split_nonempty c s).
  destruct (JsString.split c s); [done|]. unfold JsString.first_piece in *.
  simpl in *. by rewrite IH1.
Qed.

(** With exactly one separator, cutting at the first and at the last
    occurrence is the same cut. *)
Lemma first_piece_one_separator (c : ascii) (a b : string) :
  c ∉ JsString.chars a → c ∉ JsString.chars b →
  JsString.first_piece (JsString.split c (a +:+ String c b)) = a
  ∧ JsString.before_last c (a +:+ String c b) = Some a.
Proof.
  intros Ha Hb. induction a as [|x a IH].
  - rewrite string_app_nil_l. simpl. rewrite decide_True by done.
    destruct (first_piece_no_separator c b Hb) as [_ ->]. by rewrite decide_True.
  - simpl in Ha. apply not_elem_of_cons in Ha as [Hx Ha]. destruct (IH Ha) as [IH1 IH2].
    rewrite string_app_cons. simpl. rewrite IH2, decide_False by done.
    split; [|done]. pose proof (split_nonempty c (a +:+ String c b)).
    destruct (JsString.split c (a +:+ String c b)); [done|]. unfold JsString.first_piece in *.
    simpl in *. by rewrite IH1.
Qed.

(** For a file name with at most one full stop the display name is the
    file name minus its final extension. *)
Lemma display_name_at_most_one_dot (a b : string) :
  "."%char ∉ JsString.chars a → "."%char ∉ JsString.chars b →
  JsString.first_piece (JsString.split "." a) = JsString.strip_final_extension a
  ∧ JsString.first_piece (JsString.split "." (a +:+ String "." b))
    = JsString.strip_final_extension (a +:+ String "." b).
Proof.
  intros Ha Hb. unfold JsString.strip_final_extension.
  destruct (first_piece_no_separator "." a Ha) as [-> ->].
  by destruct (first_piece_one_separator "." a b Ha Hb) as [-> ->].
Qed.

End PathFacts.

(** ** The archive writer on top-level folders *)
Section ZipFacts.

Lemma folderAdd_top (fuel : nat) (n : string) (fs : gmap string Zip.ZipObject) :
  Zip.slash_free n → Zip.folderAdd fuel n fs = Zip.ensure_dir n fs.
Proof.
  intros Hn. unfold Zip.ensure_dir.
  destruct fuel; simpl; rewrite forceTrailingSlash_free by done;
    destruct (fs !! (n +:+ "/")); try done.
  by rewrite parentFolder_top, decide_True.
Qed.

Lemma folder_top (n : string) (fs : gmap string Zip.ZipObject) :
  Zip.good_name n → Zip.folder "" n fs = (Zip.ensure_dir n fs, n +:+ "/").
Proof.
  intros [Hne Hn]. unfold Zip.folder. rewrite decide_False by done.
  rewrite string_app_nil_l, folderAdd_top by done.
  by rewrite forceTrailingSlash_free.
Qed.

Lemma file_in_folder (n f : string) (blob : Zip.Blob) (fs : gmap string Zip.ZipObject) :
  Zip.good_name n → Zip.slash_free f → f ≠ EmptyString →
  is_Some (fs !! (n +:+ "/")) →
  Zip.file (n +:+ "/") f blob fs = <[n +:+ "/" +:+ f := Zip.Data blob]> fs.
Proof.
  intros [Hne Hn] Hf Hfne [o Ho]. unfold Zip.file, Zip.fileAdd.
  rewrite string_app_assoc, parentFolder_in_folder by done.
  rewrite decide_False by done. rewrite folderAdd_top by done.
  unfold Zip.ensure_dir. by rewrite Ho.
Qed.

Lemma ensure_dir_lookup (n : string) (fs : gmap string Zip.ZipObject) :
  Zip.ensure_dir n fs !! (n +:+ "/") = Some (default Zip.Dir (fs !! (n +:+ "/"))).
Proof.
  unfold Zip.ensure_dir. destruct (fs !! (n +:+ "/")) eqn:E; simpl; [done|].
  apply lookup_insert_eq.
Qed.

Lemma ensure_dir_lookup_ne (n p : string) (fs : gmap string Zip.ZipObject) :
  p ≠ n +:+ "/" → Zip.ensure_dir n fs !! p = fs !! p.
Proof.
  intros Hp. unfold Zip.ensure_dir. destruct (fs !! (n +:+ "/")); [done|].
  by apply lookup_insert_ne.
Qed.

Lemma entry_path_inj (n : string) (i j : nat) :
  App.entry_path n i = App.entry_path n j → i = j.
Proof.
  unfold App.entry_path. intros E.
  apply (String.app_inj n), (String.app_inj "/") in E.
  by apply quad_file_name_inj in E.
Qed.

Lemma entry_path_not_dir (n : string) (idx : nat) : App.entry_path n idx ≠ n +:+ "/".
Proof.
  unfold App.entry_path. intros E.
  apply (String.app_inj n) in E. apply (f_equal JsString.chars) in E.
  unfold App.quad_file_name in E. rewrite !chars_app in E. simpl in E.
  by destruct (JsString.chars n).
Qed.

Lemma top_folder_entry_path (n : string) (idx : nat) :
  Zip.slash_free n → Zip.top_folder (App.entry_path n idx) = n.
Proof. apply top_folder_in_folder. Qed.

Lemma top_folder_dir (n : string) : Zip.slash_free n → Zip.top_folder (n +:+ "/") = n.
Proof. intros Hn. by apply (top_folder_in_folder n EmptyString). Qed.

End ZipFacts.

(** ** The batch runner *)
Section RunnerFacts.
Import App Run.
Context `{Platform}.

Lemma process_one_ok (n i : nat) (f : Types.FileWithPreview) (q : list string)
    (w : World) (rs : list Types.ProcessedImage) :
  splitImageIntoFour f = Ok q →
  process_one n i f (w, rs)
  = (Ok tt,
     (mkWorld (files w) (processed w) (status w) (JsNumber.progress_at i n)
              (JSZip_loaded w) (now w) (S (draws w))
              (log w ++ [EvSplit f; EvSetProgress (JsNumber.progress_at i n)]),
      rs ++ [Types.mkProcessed (random_id (draws w))
               (JsString.first_piece (JsString.split "." (Types.name f))) q])).
Proof.
  intros Hq. unfold process_one, try_catch, lift, await_split, mbind, M_bind. simpl.
  rewrite Hq. simpl. unfold emit. simpl. by rewrite <- app_assoc.
Qed.

Lemma process_one_throw (n i : nat) (f : Types.FileWithPreview) (e : JsError)
    (w : World) (rs : list Types.ProcessedImage) :
  splitImageIntoFour f = Throw e →
  process_one n i f (w, rs)
  = (Ok tt,
     (mkWorld (files w) (processed w) (status w) (progress w)
              (JSZip_loaded w) (now w) (draws w)
              (log w ++ [EvSplit f; EvConsoleError e]),
      rs)).
Proof.
  intros He. unfold process_one, try_catch, lift, await_split, mbind, M_bind. simpl.
  rewrite He. simpl. unfold emit. simpl. by rewrite <- app_assoc.
Qed.

Lemma transitions_app cur evs1 evs2 :
  transitions cur evs1 = [] → transitions cur (evs1 ++ evs2) = transitions cur evs2.
Proof.
  induction evs1 as [|e evs1 IH]; [done|]. destruct e; simpl; auto; discriminate.
Qed.

Lemma attempted_app evs1 evs2 : attempted (evs1 ++ evs2) = attempted evs1 ++ attempted evs2.
Proof.
  induction evs1 as [|e evs1 IH]; [done|]. destruct e; simpl; by rewrite ?IH.
Qed.

(** The loop never throws; it leaves in [results] the fold of the splitter
    over the inputs, attempts every input once and in order, and writes no
    status. *)
Lemma for_each_process_one (n i : nat) (inputs : list Types.FileWithPreview)
    (w : World) (rs : list Types.ProcessedImage) :
  ∃ p evs,
    for_each i inputs (process_one n) (w, rs)
    = (Ok tt,
       (mkWorld (files w) (processed w) (status w) p (JSZip_loaded w) (now w)
                (draws w + length (results_from (draws w) inputs)) (log w ++ evs),
        rs ++ results_from (draws w) inputs))
    ∧ (∀ cur, transitions cur evs = [])
    ∧ attempted evs = inputs
    ∧ length (progress_writes evs) = length (results_from (draws w) inputs).
Proof.
  revert i w rs. induction inputs as [|f inputs IH]; intros i w rs.
  - exists (progress w), []. simpl. rewrite !app_nil_r, Nat.add_0_r.
    by destruct w.
  - cbn [for_each]. unfold mbind at 1, M_bind at 1.
    destruct (splitImageIntoFour f) as [q|e] eqn:Hf.
    + rewrite (process_one_ok _ _ _ q) by done.
      edestruct IH as (p & evs & -> & Htr & Hatt & Hpw).
      exists p, ([EvSplit f; EvSetProgress (JsNumber.progress_at i n)] ++ evs).
      cbn [results_from files processed status JSZip_loaded now draws log] in *.
      rewrite Hf. cbn [length]. split; [|split; [|split]].
      * do 2 f_equal; [f_equal; [lia|] |]; by rewrite <- app_assoc.
      * intros cur. simpl. apply Htr.
      * simpl. by rewrite Hatt.
      * simpl. by rewrite Hpw.
    + rewrite (process_one_throw _ _ _ e) by done.
      edestruct IH as (p & evs & -> & Htr & Hatt & Hpw).
      exists p, ([EvSplit f; EvConsoleError e] ++ evs).
      cbn [results_from files processed status JSZip_loaded now draws log] in *.
      rewrite Hf. split; [|split; [|split]].
      * do 3 f_equal. by rewrite <- app_assoc.
      * intros cur. simpl. apply Htr.
      * simpl. by rewrite Hatt.
      * simpl. by rewrite Hpw.
Qed.

(** A run over a non-empty batch, in full. *)
Lemma processImages_run (w : World) :
  files w ≠ [] →
  ∃ p evs,
    processImages w
    = (Ok tt,
       mkWorld (files w) (results_from (draws w) (files w)) Types.COMPLETED p
               (JSZip_loaded w) (now w)
               (draws w + length (results_from (draws w) (files w)))
               (log w ++ [EvSetStatus Types.PROCESSING; EvSetProcessed [];
                          EvSetProgress (JsNumber.of_nat 0)]
                      ++ evs
                      ++ [EvSetProcessed (results_from (draws w) (files w));
                          EvSetStatus Types.COMPLETED]))
    ∧ (∀ cur, transitions cur evs = [])
    ∧ attempted evs = files w
    ∧ length (progress_writes evs) = length (results_from (draws w) (files w)).
Proof.
  intros Hne. unfold processImages.
  destruct (decide (length (files w) = 0)) as [H0|_].
  { by destruct (files w). }
  unfold mbind, M_bind, with_local, setStatus, setProcessed, setProgress, emit.
  cbn [files processed status progress JSZip_loaded now draws log].
  match goal with
  | |- context [for_each 0 ?l ?b (?w0, ?rs0)] =>
      destruct (for_each_process_one (length l) 0 l w0 rs0) as (p & evs & -> & Htr & Hatt & Hpw)
  end.
  cbn [files processed status progress JSZip_loaded now draws log].
  exists p, evs. split; [|done].
  rewrite app_nil_l. do 2 f_equal. by rewrite <- !app_assoc.
Qed.

Lemma results_from_ids (d : nat) (inputs : list Types.FileWithPreview) :
  Types.id <$> results_from d inputs
  = random_id <$> seq d (length (results_from d inputs)).
Proof.
  revert d. induction inputs as [|f inputs IH]; intros d; [done|].
  simpl. destruct (splitImageIntoFour f); [|apply IH].
  simpl. f_equal. apply IH.
Qed.

Lemma results_from_all_ok (d : nat) (inputs : list Types.FileWithPreview) :
  (∀ f, f ∈ inputs → ∃ q, splitImageIntoFour f = Ok q) →
  Forall2 result_of (results_from d inputs) inputs.
Proof.
  revert d. induction inputs as [|f inputs IH]; intros d Hok; [constructor|].
  simpl. destruct (Hok f) as [q Hq]; [left|]. rewrite Hq.
  constructor; [done|]. apply IH. intros g Hg. apply Hok. by right.
Qed.

Lemma results_from_one_failure (d k : nat) (inputs : list Types.FileWithPreview) :
  k < length inputs →
  (∀ i f, inputs !! i = Some f → (∃ e, splitImageIntoFour f = Throw e) ↔ i = k) →
  Forall2 result_of (results_from d inputs) (delete k inputs).
Proof.
  revert d k. induction inputs as [|f inputs IH]; intros d k Hk Hfail; [simpl in Hk; lia|].
  destruct k as [|k].
  - destruct (proj2 (Hfail 0 f eq_refl) eq_refl) as [e He].
    simpl. rewrite He. apply results_from_all_ok.
    intros g [i Hi]%list_elem_of_lookup.
    destruct (splitImageIntoFour g) as [q|e'] eqn:Hg; [by exists q|].
    assert (S i = 0) by (apply (Hfail (S i) g); [done | by exists e']). lia.
  - simpl. destruct (splitImageIntoFour f) as [q|e] eqn:Hf.
    + constructor; [done|]. apply IH; [simpl in Hk; lia|].
      intros i g Hg. rewrite (Hfail (S i) g Hg). lia.
    + assert (0 = S k) by (apply (Hfail 0 f); [done | by exists e]). lia.
Qed.

Lemma downloads_app evs1 evs2 : downloads (evs1 ++ evs2) = downloads evs1 ++ downloads evs2.
Proof.
  induction evs1 as [|e evs1 IH]; [done|]. destruct e; simpl; by rewrite ?IH.
Qed.

Lemma progress_writes_app evs1 evs2 :
  progress_writes (evs1 ++ evs2) = progress_writes evs1 ++ progress_writes evs2.
Proof.
  induction evs1 as [|e evs1 IH]; [done|]. destruct e; simpl; by rewrite ?IH.
Qed.

(** Over a non-empty batch the progress counter is written once at the
    start and once more for every image that splits, and never for an image
    that fails. *)
Lemma processImages_progress_writes (w : World) :
  files w ≠ [] →
  ∃ w' evs,
    processImages w = (Ok tt, w')
    ∧ log w' = log w ++ evs
    ∧ attempted evs = files w
    ∧ length (progress_writes evs) = 1 + length (processed w').
Proof.
  intros Hne. destruct (processImages_run w Hne) as (p & evs & Hrun & _ & Hatt & Hpw).
  eexists _, _. split; [exact Hrun|]. cbn [log processed]. split; [reflexivity|].
  rewrite !attempted_app, !progress_writes_app, !length_app. simpl.
  rewrite app_nil_r, Hpw. split; [done | lia].
Qed.

End RunnerFacts.

(** ** The packager *)
Section PackagerFacts.
Import App.
Context `{Platform}.

Lemma insert_quadrants_cons (n : string) (idx : nat) (q : string) (qs : list string)
    (fs : gmap string Zip.ZipObject) :
  insert_quadrants n idx (q :: qs) fs
  = insert_quadrants n (S idx) qs (<[entry_path n idx := Zip.Data (dataURLtoBlob q)]> fs).
Proof. reflexivity. Qed.

Lemma zip_files_are_inserts (n : string) (idx : nat) (qs : list string)
    (fs : gmap string Zip.ZipObject) :
  Zip.good_name n → is_Some (fs !! (n +:+ "/")) →
  fold_indexed
    (λ archive k dataUrl,
       Zip.file (n +:+ "/") (quad_file_name n k) (dataURLtoBlob dataUrl) archive)
    idx qs fs
  = insert_quadrants n idx qs fs.
Proof.
  intros Hn. revert idx fs. induction qs as [|q qs IH]; intros idx fs Hdir; [done|].
  rewrite insert_quadrants_cons. cbn [fold_indexed].
  rewrite file_in_folder;
    [|done|apply quad_file_name_slash_free, Hn|apply quad_file_name_nonempty|done].
  apply IH. rewrite lookup_insert_ne by apply entry_path_not_dir. done.
Qed.

Lemma zip_item_eq (fs : gmap string Zip.ZipObject) (item : Types.ProcessedImage) :
  Zip.good_name (Types.originalName item) →
  zip_item fs item
  = insert_quadrants (Types.originalName item) 0 (Types.quadrants item)
      (Zip.ensure_dir (Types.originalName item) fs).
Proof.
  intros Hn. unfold zip_item. rewrite folder_top by done.
  apply zip_files_are_inserts; [done|].
  rewrite ensure_dir_lookup. by eexists.
Qed.

Lemma insert_quadrants_lookup_Some (n : string) (idx : nat) (qs : list string)
    (fs : gmap string Zip.ZipObject) (p : string) (o : Zip.ZipObject) :
  insert_quadrants n idx qs fs !! p = Some o →
  fs !! p = Some o
  ∨ ∃ k q, qs !! k = Some q ∧ p = entry_path n (idx + k) ∧ o = Zip.Data (dataURLtoBlob q).
Proof.
  revert idx fs. induction qs as [|q qs IH]; intros idx fs Hp; [by left|].
  rewrite insert_quadrants_cons in Hp. apply IH in Hp as [Hp|(k & q' & Hk & -> & ->)].
  - apply lookup_insert_Some in Hp as [[<- <-]|[_ Hp]]; [|by left].
    right. exists 0, q. by rewrite Nat.add_0_r.
  - right. exists (S k), q'. split; [done|]. split; [f_equal; lia | done].
Qed.

Lemma insert_quadrants_lookup_other (n : string) (idx : nat) (qs : list string)
    (fs : gmap string Zip.ZipObject) (p : string) :
  (∀ k, idx ≤ k → p ≠ entry_path n k) → insert_quadrants n idx qs fs !! p = fs !! p.
Proof.
  revert idx fs. induction qs as [|q qs IH]; intros idx fs Hp; [done|].
  rewrite insert_quadrants_cons, IH by (intros k Hk; apply Hp; lia).
  apply lookup_insert_ne. intros E. by apply (Hp idx).
Qed.

Lemma insert_quadrants_lookup_key (n : string) (idx k : nat) (qs : list string) (q : string)
    (fs : gmap string Zip.ZipObject) :
  qs !! k = Some q →
  insert_quadrants n idx qs fs !! entry_path n (idx + k) = Some (Zip.Data (dataURLtoBlob q)).
Proof.
  revert idx k fs. induction qs as [|q0 qs IH]; intros idx k fs Hk; [done|].
  rewrite insert_quadrants_cons. destruct k as [|k]; simpl in Hk.
  - simplify_eq. rewrite Nat.add_0_r, insert_quadrants_lookup_other.
    + apply lookup_insert_eq.
    + intros k Hk E%entry_path_inj. lia.
  - replace (idx + S k) with (S idx + k) by lia. by apply IH.
Qed.

Lemma insert_data_sizes (p : string) (blob : Zip.Blob) (fs : gmap string Zip.ZipObject) :
  fs !! p = None →
  size (Zip.folders (<[p := Zip.Data blob]> fs)) = size (Zip.folders fs)
  ∧ size (Zip.regular_files (<[p := Zip.Data blob]> fs)) = S (size (Zip.regular_files fs)).
Proof.
  intros Hp. unfold Zip.folders, Zip.regular_files. split.
  - rewrite map_filter_insert_not'; [done|done|]. intros y. by rewrite Hp.
  - rewrite map_filter_insert_True by done.
    apply map_size_insert_None, map_lookup_filter_None. by left.
Qed.

Lemma insert_dir_sizes (p : string) (fs : gmap string Zip.ZipObject) :
  fs !! p = None →
  size (Zip.folders (<[p := Zip.Dir]> fs)) = S (size (Zip.folders fs))
  ∧ size (Zip.regular_files (<[p := Zip.Dir]> fs)) = size (Zip.regular_files fs).
Proof.
  intros Hp. unfold Zip.folders, Zip.regular_files. split.
  - rewrite map_filter_insert_True by done.
    apply map_size_insert_None, map_lookup_filter_None. by left.
  - rewrite map_filter_insert_not'; [done|done|]. intros y. by rewrite Hp.
Qed.

Lemma insert_quadrants_sizes (n : string) (idx : nat) (qs : list string)
    (fs : gmap string Zip.ZipObject) :
  (∀ k, idx ≤ k → fs !! entry_path n k = None) →
  size (Zip.folders (insert_quadrants n idx qs fs)) = size (Zip.folders fs)
  ∧ size (Zip.regular_files (insert_quadrants n idx qs fs))
    = size (Zip.regular_files fs) + length qs.
Proof.
  revert idx fs. induction qs as [|q qs IH]; intros idx fs Hfresh.
  { unfold insert_quadrants. simpl. lia. }
  rewrite insert_quadrants_cons.
  destruct (IH (S idx) (<[entry_path n idx := Zip.Data (dataURLtoBlob q)]> fs)) as [-> ->].
  { intros k Hk. rewrite lookup_insert_ne; [apply Hfresh; lia|].
    intros E%entry_path_inj. lia. }
  destruct (insert_data_sizes (entry_path n idx) (dataURLtoBlob q) fs) as [-> ->];
    [by apply Hfresh|]. simpl. lia.
Qed.

Lemma zip_item_frame (fs : gmap string Zip.ZipObject) (item : Types.ProcessedImage)
    (p : string) :
  Zip.good_name (Types.originalName item) →
  Zip.top_folder p ≠ Types.originalName item →
  zip_item fs item !! p = fs !! p.
Proof.
  intros Hn Hp. rewrite zip_item_eq by done.
  rewrite insert_quadrants_lookup_other.
  - apply ensure_dir_lookup_ne. intros ->. apply Hp, top_folder_dir, Hn.
  - intros k _ ->. apply Hp, top_folder_entry_path, Hn.
Qed.

Lemma zip_item_lookup_Some (fs : gmap string Zip.ZipObject) (item : Types.ProcessedImage)
    (p : string) (o : Zip.ZipObject) :
  Zip.good_name (Types.originalName item) →
  zip_item fs item !! p = Some o →
  fs !! p = Some o
  ∨ (p = Types.originalName item +:+ "/" ∧ o = Zip.Dir)
  ∨ ∃ k q, Types.quadrants item !! k = Some q
           ∧ p = entry_path (Types.originalName item) k
           ∧ o = Zip.Data (dataURLtoBlob q).
Proof.
  intros Hn. rewrite zip_item_eq by done.
  intros [Hp|(k & q & Hk & -> & ->)]%insert_quadrants_lookup_Some.
  - unfold Zip.ensure_dir in Hp.
    destruct (fs !! (Types.originalName item +:+ "/")) eqn:E; [by left|].
    apply lookup_insert_Some in Hp as [[<- <-]|[_ Hp]]; [right; by left | by left].
  - right; right. by exists k, q.
Qed.

Lemma build_frame (items : list Types.ProcessedImage) (fs : gmap string Zip.ZipObject)
    (p : string) :
  Forall (λ item, Zip.good_name (Types.originalName item)) items →
  Forall (λ item, Types.originalName item ≠ Zip.top_folder p) items →
  foldl zip_item fs items !! p = fs !! p.
Proof.
  intros Hgood. revert fs. induction Hgood as [|item items Hn _ IH]; intros fs Hne; [done|].
  apply Forall_cons in Hne as [Hne Hrest]. simpl. rewrite IH by done.
  by apply zip_item_frame.
Qed.

Lemma build_lookup_Some (items : list Types.ProcessedImage) (fs : gmap string Zip.ZipObject)
    (p : string) (o : Zip.ZipObject) :
  Forall (λ item, Zip.good_name (Types.originalName item)) items →
  foldl zip_item fs items !! p = Some o →
  fs !! p = Some o
  ∨ ∃ item, item ∈ items
      ∧ ((p = Types.originalName item +:+ "/" ∧ o = Zip.Dir)
         ∨ ∃ k q, Types.quadrants item !! k = Some q
                  ∧ p = entry_path (Types.originalName item) k
                  ∧ o = Zip.Data (dataURLtoBlob q)).
Proof.
  intros Hgood. revert fs. induction Hgood as [|item items Hn _ IH]; intros fs Hp; [by left|].
  simpl in Hp. apply IH in Hp as [Hp|(item' & Hin & Hp)].
  - apply zip_item_lookup_Some in Hp; [|done]. destruct Hp as [Hp|Hp]; [by left|].
    right. exists item. split; [by left | done].
  - right. exists item'. split; [by right | done].
Qed.

Lemma zip_item_sizes (fs : gmap string Zip.ZipObject) (item : Types.ProcessedImage) :
  Zip.good_name (Types.originalName item) →
  (∀ p, Zip.top_folder p = Types.originalName item → fs !! p = None) →
  size (Zip.folders (zip_item fs item)) = S (size (Zip.folders fs))
  ∧ size (Zip.regular_files (zip_item fs item))
    = size (Zip.regular_files fs) + length (Types.quadrants item).
Proof.
  intros Hn Hfresh. rewrite zip_item_eq by done.
  assert (Hdir : fs !! (Types.originalName item +:+ "/") = None)
    by apply Hfresh, top_folder_dir, Hn.
  unfold Zip.ensure_dir. rewrite Hdir.
  destruct (insert_quadrants_sizes (Types.originalName item) 0 (Types.quadrants item)
              (<[Types.originalName item +:+ "/" := Zip.Dir]> fs)) as [-> ->].
  { intros k _. rewrite lookup_insert_ne by (apply not_eq_sym, entry_path_not_dir).
    apply Hfresh, top_folder_entry_path, Hn. }
  by destruct (insert_dir_sizes (Types.originalName item +:+ "/") fs Hdir) as [-> ->].
Qed.

Lemma build_sizes (items : list Types.ProcessedImage) (fs : gmap string Zip.ZipObject) :
  Forall (λ item, Zip.good_name (Types.originalName item)) items →
  NoDup (Types.originalName <$> items) →
  (∀ item p, item ∈ items → Zip.top_folder p = Types.originalName item → fs !! p = None) →
  size (Zip.folders (foldl zip_item fs items)) = size (Zip.folders fs) + length items
  ∧ size (Zip.regular_files (foldl zip_item fs items))
    = size (Zip.regular_files fs) + sum_list (length ∘ Types.quadrants <$> items).
Proof.
  intros Hgood. revert fs.
  induction Hgood as [|item items Hn Hgood IH]; intros fs Hnd Hfresh; [simpl; lia|].
  rewrite fmap_cons in Hnd. apply NoDup_cons in Hnd as [Hnotin Hnd].
  cbn [foldl].
  destruct (IH (zip_item fs item)) as [-> ->]; [done| |].
  - intros item' p Hin Hp. rewrite zip_item_frame; [|done|].
    + apply (Hfresh item'); [by right | done].
    + rewrite Hp. intros E. apply Hnotin. rewrite <- E. by apply list_elem_of_fmap_2.
  - destruct (zip_item_sizes fs item Hn) as [-> ->].
    + intros p Hp. apply (Hfresh item); [by left | done].
    + rewrite fmap_cons. cbn [sum_list sum_list_with length]. simpl. lia.
Qed.

(** The entries of the folder of a result whose display name no other
    result of the list has. *)
Lemma build_archive_folder (before after : list Types.ProcessedImage)
    (r : Types.ProcessedImage) :
  Forall (λ item, Zip.good_name (Types.originalName item)) (before ++ r :: after) →
  Forall (λ item, Types.originalName item ≠ Types.originalName r) (before ++ after) →
  let archive := build_archive (before ++ r :: after) in
  archive !! (Types.originalName r +:+ "/") = Some Zip.Dir
  ∧ (∀ k q, Types.quadrants r !! k = Some q →
       archive !! entry_path (Types.originalName r) k = Some (Zip.Data (dataURLtoBlob q)))
  ∧ (∀ p, Zip.top_folder p = Types.originalName r → is_Some (archive !! p) →
       p = Types.originalName r +:+ "/"
       ∨ ∃ k, k < length (Types.quadrants r) ∧ p = entry_path (Types.originalName r) k).
Proof.
  intros Hgood Hne.
  apply Forall_app in Hgood as [Hgb Hgood]. apply Forall_cons in Hgood as [Hn Hga].
  apply Forall_app in Hne as [Hnb Hna].
  assert (Hlook : ∀ p, Zip.top_folder p = Types.originalName r →
            build_archive (before ++ r :: after) !! p
            = zip_item (foldl zip_item ∅ before) r !! p).
  { intros p Hp. unfold build_archive. rewrite foldl_app. cbn [foldl].
    by rewrite build_frame by (by rewrite ?Hp). }
  assert (Hempty : ∀ p, Zip.top_folder p = Types.originalName r →
            foldl zip_item ∅ before !! p = None).
  { intros p Hp. rewrite build_frame by (by rewrite ?Hp). apply lookup_empty. }
  cbv zeta. split; [|split].
  - rewrite Hlook by apply top_folder_dir, Hn. rewrite zip_item_eq by done.
    rewrite insert_quadrants_lookup_other
      by (intros k _; apply not_eq_sym, entry_path_not_dir).
    rewrite ensure_dir_lookup, Hempty by apply top_folder_dir, Hn. done.
  - intros k q Hk. rewrite Hlook by apply top_folder_entry_path, Hn.
    rewrite zip_item_eq by done.
    by apply (insert_quadrants_lookup_key _ 0 k).
  - intros p Hp [o Ho]. rewrite Hlook in Ho by done.
    apply zip_item_lookup_Some in Ho; [|done].
    destruct Ho as [Ho|[[-> _]|(k & q & Hk & -> & _)]].
    + by rewrite Hempty in Ho.
    + by left.
    + right. exists k. split; [by apply lookup_lt_Some in Hk | done].
Qed.

(** With the archive library loaded, [downloadZip] hands the archive built
    from the processed results to the browser. *)
Lemma downloadZip_run (w : World) :
  JSZip_loaded w = true →
  downloadZip w
  = (Ok tt,
     emit (EvDownload ("quadsplit_images_" +:+ pretty (now w) +:+ ".zip")
                      (build_archive (processed w))) w).
Proof. intros Hl. unfold downloadZip. by rewrite Hl. Qed.

End PackagerFacts.

Import App Run.

(** C8 (empty batch).  Invoking [processImages] with no input image selected
    returns at once: the call does not throw, and the world after it is the
    world before it, so the run state, the progress counter, the processed
    results and the list of effects (hence of status transitions) are all
    left as they were. *)
Theorem processImages_empty_noop `{Platform} (w : World) :
  files w = [] →
  processImages w = (Ok tt, w)
  ∧ transitions (status w) (drop (length (log w)) (log (processImages w).2)) = [].
Proof.
  intros Hnil. unfold processImages. rewrite Hnil. simpl.
  by rewrite drop_all.
Qed.

Lemma processImages_empty_noop_witness :
  files (Fixtures.fresh [] true) = []
  ∧ @processImages Fixtures.counting (Fixtures.fresh [] true)
    = (Ok tt, Fixtures.fresh [] true).
Proof.
  split; [reflexivity|].
  exact (proj1 (@processImages_empty_noop Fixtures.counting (Fixtures.fresh [] true) eq_refl)).
Defined.

(** C7 (run state).  A run of [processImages] over at least one image does
    not throw and makes exactly two status transitions: from the status it
    starts in to [PROCESSING] as its first effect, and from [PROCESSING] to
    [COMPLETED] as its last effect, after every one of the input images has
    been handed to the splitter, in order, whatever the outcome of each.
    The run ends in [COMPLETED].  A run that starts in [IDLE] goes
    [IDLE], [PROCESSING], [COMPLETED]; the status a run starts in is not
    tested by the code, and no run writes [IDLE] or [ERROR]. *)
Theorem processImages_transitions `{Platform} (w : World) :
  files w ≠ [] →
  ∃ w' evs,
    processImages w = (Ok tt, w')
    ∧ log w' = log w ++ EvSetStatus Types.PROCESSING :: evs ++ [EvSetStatus Types.COMPLETED]
    ∧ attempted evs = files w
    ∧ transitions (status w) (EvSetStatus Types.PROCESSING :: evs ++ [EvSetStatus Types.COMPLETED])
      = [(status w, Types.PROCESSING); (Types.PROCESSING, Types.COMPLETED)]
    ∧ (status w = Types.IDLE →
       transitions Types.IDLE
         (EvSetStatus Types.PROCESSING :: evs ++ [EvSetStatus Types.COMPLETED])
       = [(Types.IDLE, Types.PROCESSING); (Types.PROCESSING, Types.COMPLETED)])
    ∧ status w' = Types.COMPLETED.
Proof.
  intros Hne.
  destruct (processImages_run w Hne) as (p & evs & Hrun & Htr & Hatt & _).
  eexists _, ([EvSetProcessed []; EvSetProgress (JsNumber.of_nat 0)] ++ evs
              ++ [EvSetProcessed (results_from (draws w) (files w))]).
  assert (Hall : ∀ cur,
            transitions cur
              (EvSetStatus Types.PROCESSING
               :: ([EvSetProcessed []; EvSetProgress (JsNumber.of_nat 0)] ++ evs
                   ++ [EvSetProcessed (results_from (draws w) (files w))])
               ++ [EvSetStatus Types.COMPLETED])
            = [(cur, Types.PROCESSING); (Types.PROCESSING, Types.COMPLETED)]).
  { intros cur. cbn [transitions app].
    rewrite <- app_assoc. rewrite transitions_app by apply Htr. done. }
  split; [exact Hrun|]. cbn [log status]. split; [|split; [|split; [|split]]].
  - by rewrite <- !app_assoc.
  - rewrite !attempted_app. simpl. by rewrite app_nil_r.
  - apply Hall.
  - intros _. apply Hall.
  - done.
Qed.

Lemma processImages_transitions_witness :
  ∃ w' evs,
    @processImages Fixtures.counting
      (Fixtures.fresh [Fixtures.image "a.png"; Fixtures.corrupt "b.png"] true) = (Ok tt, w')
    ∧ attempted evs = [Fixtures.image "a.png"; Fixtures.corrupt "b.png"]
    ∧ transitions Types.IDLE
        (EvSetStatus Types.PROCESSING :: evs ++ [EvSetStatus Types.COMPLETED])
      = [(Types.IDLE, Types.PROCESSING); (Types.PROCESSING, Types.COMPLETED)]
    ∧ status w' = Types.COMPLETED.
Proof.
  destruct (@processImages_transitions Fixtures.counting
              (Fixtures.fresh [Fixtures.image "a.png"; Fixtures.corrupt "b.png"] true))
    as (w' & evs & Hrun & _ & Hatt & _ & Hidle & Hst).
  - discriminate.
  - exists w', evs. split; [exact Hrun|]. split; [exact Hatt|].
    split; [exact (Hidle eq_refl) | exact Hst].
Defined.

(** C7, as stated, fails: the run that "Process Again" starts, from the
    state a first run left behind, has at least one image and makes the
    transitions [COMPLETED] to [PROCESSING] to [COMPLETED]; none of them
    leaves [IDLE]. *)
Lemma processImages_restart_leaves_completed :
  files Fixtures.processed_once ≠ []
  ∧ status Fixtures.processed_once = Types.COMPLETED
  ∧ (@processImages Fixtures.counting Fixtures.processed_once).1 = Ok tt
  ∧ transitions (status Fixtures.processed_once)
      (drop (length (log Fixtures.processed_once))
            (log (@processImages Fixtures.counting Fixtures.processed_once).2))
    = [(Types.COMPLETED, Types.PROCESSING); (Types.PROCESSING, Types.COMPLETED)]
  ∧ (Types.IDLE, Types.PROCESSING)
    ∉ transitions (status Fixtures.processed_once)
        (drop (length (log Fixtures.processed_once))
              (log (@processImages Fixtures.counting Fixtures.processed_once).2)).
Proof.
  split; [discriminate|]. split; [reflexivity|]. split; [reflexivity|].
  split; [vm_compute; reflexivity|].
  vm_compute. intros Hin.
  apply elem_of_cons in Hin as [Heq|Hin]; [discriminate|].
  apply elem_of_cons in Hin as [Heq|Hin]; [discriminate|].
  by apply not_elem_of_nil in Hin.
Qed.

(** C3 (error isolation).  When exactly one image of the batch, the one at
    index [k], fails to split, [processImages] does not throw, hands every
    image of the batch to the splitter, in order, and leaves a result list of
    length [N - 1] that holds, in input order, one result for each image
    other than image [k]: the result's display name is derived from that
    image's file name and its quadrants are what the splitter returned for
    that image. *)
Theorem processImages_isolates_failure `{Platform} (w : World) (k : nat) :
  k < length (files w) →
  (∀ i f, files w !! i = Some f → (∃ e, splitImageIntoFour f = Throw e) ↔ i = k) →
  ∃ w' evs,
    processImages w = (Ok tt, w')
    ∧ log w' = log w ++ evs
    ∧ attempted evs = files w
    ∧ length (processed w') = length (files w) - 1
    ∧ Forall2 result_of (processed w') (delete k (files w)).
Proof.
  intros Hk Hfail.
  assert (Hne : files w ≠ []) by (intros E; rewrite E in Hk; simpl in Hk; lia).
  destruct (processImages_run w Hne) as (p & evs & Hrun & _ & Hatt & _).
  pose proof (results_from_one_failure (draws w) k (files w) Hk Hfail) as HR.
  eexists _, _. split; [exact Hrun|]. cbn [log processed].
  split; [reflexivity|]. split; [|split].
  - rewrite !attempted_app. simpl. by rewrite app_nil_r.
  - rewrite (Forall2_length _ _ _ HR), length_delete; [lia|].
    by apply lookup_lt_is_Some_2.
  - exact HR.
Qed.

Lemma processImages_isolates_failure_witness :
  ∃ w',
    @processImages Fixtures.counting
      (Fixtures.fresh
         [Fixtures.image "a.png"; Fixtures.corrupt "b.png"; Fixtures.image "c.png"] true)
    = (Ok tt, w')
    ∧ length (processed w') = 2.
Proof.
  destruct (@processImages_isolates_failure Fixtures.counting
              (Fixtures.fresh
                 [Fixtures.image "a.png"; Fixtures.corrupt "b.png"; Fixtures.image "c.png"]
                 true) 1)
    as (w' & evs & Hrun & _ & _ & Hlen & _).
  - simpl. lia.
  - intros [|[|[|i]]] f Hf; simpl in Hf; simplify_eq; simpl; split;
      try lia; try (intros [e He]; discriminate); intros _; by eexists.
  - exists w'. split; [exact Hrun | exact Hlen].
Defined.

(** C10 (archive library missing).  When [window.JSZip] is not there,
    [downloadZip] does not throw; its only effect is the alert, so no archive
    is handed to the browser for download, and the component state, the
    processed results among it, is left as it was. *)
Theorem downloadZip_without_JSZip `{Platform} (w : World) :
  JSZip_loaded w = false →
  ∃ w',
    downloadZip w = (Ok tt, w')
    ∧ log w' = log w ++ [EvAlert "JSZip library not loaded yet. Please refresh."]
    ∧ downloads (log w') = downloads (log w)
    ∧ processed w' = processed w
    ∧ files w' = files w ∧ status w' = status w ∧ progress w' = progress w.
Proof.
  intros Hno. unfold downloadZip. rewrite Hno. simpl.
  eexists. split; [reflexivity|]. simpl.
  rewrite downloads_app, app_nil_r. done.
Qed.

Lemma downloadZip_without_JSZip_witness :
  JSZip_loaded (Fixtures.fresh [Fixtures.image "a.png"] false) = false
  ∧ ∃ w',
      @downloadZip Fixtures.counting (Fixtures.fresh [Fixtures.image "a.png"] false)
      = (Ok tt, w')
      ∧ downloads (log w') = [].
Proof.
  split; [reflexivity|].
  destruct (@downloadZip_without_JSZip Fixtures.counting
              (Fixtures.fresh [Fixtures.image "a.png"] false) eq_refl)
    as (w' & Hrun & _ & Hd & _).
  exists w'. split; [exact Hrun | exact Hd].
Defined.




(** C2 at a batch whose last image fails.  The run over one good image
    followed by one corrupt image ends in [COMPLETED] with the progress
    counter at 50: it was written at the start of the run and after the good
    image, and not after the corrupt one. *)
Theorem processImages_progress_stalls_on_failure :
  let w' := (@processImages Fixtures.counting
               (Fixtures.fresh [Fixtures.image "a.png"; Fixtures.corrupt "b.png"] true)).2 in
  status w' = Types.COMPLETED
  ∧ attempted (log w') = [Fixtures.image "a.png"; Fixtures.corrupt "b.png"]
  ∧ progress_writes (log w') = [JsNumber.of_nat 0; JsNumber.of_nat 50]
  ∧ progress w' = JsNumber.of_nat 50
  ∧ progress w' ≠ JsNumber.of_nat 100.
Proof.
  vm_compute. repeat split. discriminate.
Qed.

(** C5 at a file name with two full stops.  The display name kept for
    [photo.v2.png] is [photo], the part before the first full stop, where
    the file name minus its final extension is [photo.v2]. *)
Theorem originalName_cuts_at_first_dot :
  Types.originalName <$>
    processed (@processImages Fixtures.counting
                 (Fixtures.fresh [Fixtures.image "photo.v2.png"] true)).2
  = ["photo"]
  ∧ JsString.strip_final_extension "photo.v2.png" = "photo.v2".
Proof.
  vm_compute. done.
Qed.

(** C4, as the code has it.  With the archive library loaded, and for
    processed results of four quadrants each whose display names are
    non-empty, free of the path separator and pairwise different,
    [downloadZip] does not throw and hands the browser one archive with
    exactly [M] folders and [4 * M] files, [M] being the number of results;
    every file holds the blob of a quadrant of one of the results, so no file
    is empty when none of those blobs is. *)
Theorem downloadZip_counts `{Platform} (w : World) :
  JSZip_loaded w = true →
  Forall (λ item, Zip.good_name (Types.originalName item)
                  ∧ length (Types.quadrants item) = 4) (processed w) →
  NoDup (Types.originalName <$> processed w) →
  ∃ w' filename archive,
    downloadZip w = (Ok tt, w')
    ∧ log w' = log w ++ [EvDownload filename archive]
    ∧ size (Zip.folders archive) = length (processed w)
    ∧ size (Zip.regular_files archive) = 4 * length (processed w)
    ∧ (∀ p blob, archive !! p = Some (Zip.Data blob) →
         ∃ item q, item ∈ processed w ∧ q ∈ Types.quadrants item ∧ blob = dataURLtoBlob q)
    ∧ ((∀ item q, item ∈ processed w → q ∈ Types.quadrants item → dataURLtoBlob q ≠ []) →
       ∀ p blob, archive !! p = Some (Zip.Data blob) → blob ≠ []).
Proof.
  intros Hl Hitems Hnd.
  assert (Hgood : Forall (λ item, Zip.good_name (Types.originalName item)) (processed w))
    by (eapply Forall_impl; [exact Hitems | by intros item [? _]]).
  assert (Hfour : sum_list (length ∘ Types.quadrants <$> processed w)
                  = 4 * length (processed w)).
  { clear Hnd Hgood. induction Hitems as [|item items [_ H4] _ IH]; [done|].
    rewrite fmap_cons. cbn [sum_list sum_list_with length]. simpl in *. lia. }
  assert (Horigin : ∀ p blob, build_archive (processed w) !! p = Some (Zip.Data blob) →
            ∃ item q, item ∈ processed w ∧ q ∈ Types.quadrants item
                      ∧ blob = dataURLtoBlob q).
  { intros p blob Hp. apply build_lookup_Some in Hp; [|done].
    destruct Hp as [Hp|(item & Hin & [[_ ?]|(k & q & Hk & _ & Ho)])]; [done|done|].
    exists item, q. split; [done|]. split; [by eapply list_elem_of_lookup_2 | congruence]. }
  eexists _, _, _. split; [by apply downloadZip_run|]. split; [reflexivity|].
  destruct (build_sizes (processed w) ∅ Hgood Hnd) as [Hf Hr]; [by intros; apply lookup_empty|].
  unfold build_archive in *. split; [|split; [|split]].
  - rewrite Hf. unfold Zip.folders. by rewrite map_filter_empty, map_size_empty.
  - rewrite Hr, Hfour. unfold Zip.regular_files. by rewrite map_filter_empty, map_size_empty.
  - exact Horigin.
  - intros Hblobs p blob Hp. destruct (Horigin p blob Hp) as (item & q & Hin & Hq & ->).
    by apply (Hblobs item q).
Qed.

Lemma downloadZip_counts_witness :
  let w := (@processImages Fixtures.counting
              (Fixtures.fresh [Fixtures.image "a.png"; Fixtures.image "b.png"] true)).2 in
  ∃ w' filename archive,
    @downloadZip Fixtures.counting w = (Ok tt, w')
    ∧ log w' = log w ++ [EvDownload filename archive]
    ∧ size (Zip.folders archive) = 2
    ∧ size (Zip.regular_files archive) = 8.
Proof.
  intros w.
  destruct (@downloadZip_counts Fixtures.counting w)
    as (w' & filename & archive & Hrun & Hlog & Hf & Hr & _).
  - reflexivity.
  - vm_compute. repeat (apply Forall_cons_2 || apply Forall_nil_2);
      (split; [split; [discriminate | literal_slash_free] | reflexivity]).
  - apply (bool_decide_unpack _). vm_compute. exact I.
  - exists w', filename, archive. auto.
Defined.

(** C4, as stated, fails: [a.png] and [a.jpg] both get the display name [a],
    and the archive of their two results has one folder and four files; the
    result of [.png] has the empty display name, and its archive has no
    folder at all. *)
Lemma downloadZip_shared_name_one_folder :
  let items := processed (@processImages Fixtures.counting
                 (Fixtures.fresh [Fixtures.image "a.png"; Fixtures.image "a.jpg"] true)).2 in
  let nameless := processed (@processImages Fixtures.counting
                    (Fixtures.fresh [Fixtures.image ".png"] true)).2 in
  (length items = 2
   ∧ size (Zip.folders (@build_archive Fixtures.counting items)) = 1
   ∧ size (Zip.regular_files (@build_archive Fixtures.counting items)) = 4)
  ∧ (length nameless = 1
     ∧ size (Zip.folders (@build_archive Fixtures.counting nameless)) = 0).
Proof.
  vm_compute. done.
Qed.

(** C6, as the code has it.  With the archive library loaded and the display
    names of the processed results non-empty and free of the path separator,
    take a result of four quadrants whose display name no other result has.
    The archive that [downloadZip] hands the browser has a folder named
    exactly that display name; the file [{displayName}_quad_{k + 1}.png] in
    it holds the blob of quadrant [k] of the result; and the folder holds
    nothing but these four files. *)
Theorem downloadZip_entries `{Platform} (w : World) (j : nat) (r : Types.ProcessedImage) :
  JSZip_loaded w = true →
  Forall (λ item, Zip.good_name (Types.originalName item)) (processed w) →
  processed w !! j = Some r →
  (∀ j' r', processed w !! j' = Some r' →
            Types.originalName r' = Types.originalName r → j' = j) →
  length (Types.quadrants r) = 4 →
  ∃ w' filename archive,
    downloadZip w = (Ok tt, w')
    ∧ log w' = log w ++ [EvDownload filename archive]
    ∧ archive !! (Types.originalName r +:+ "/") = Some Zip.Dir
    ∧ (∀ k q, Types.quadrants r !! k = Some q →
         archive !! (Types.originalName r +:+ "/" +:+ Types.originalName r
                       +:+ "_quad_" +:+ pretty (k + 1) +:+ ".png")
         = Some (Zip.Data (dataURLtoBlob q)))
    ∧ (∀ p, Zip.starts_with (Types.originalName r +:+ "/") p = true →
            is_Some (archive !! p) →
            p = Types.originalName r +:+ "/"
            ∨ ∃ k, k < 4 ∧ p = Types.originalName r +:+ "/" +:+ Types.originalName r
                                  +:+ "_quad_" +:+ pretty (k + 1) +:+ ".png").
Proof.
  intros Hl Hgood Hj Huniq H4.
  assert (Hsplit : processed w = take j (processed w) ++ r :: drop (S j) (processed w))
    by (by rewrite take_drop_middle).
  assert (Hn : Zip.good_name (Types.originalName r))
    by (by eapply (Forall_lookup_1 _ _ _ _ Hgood)).
  assert (Hothers : Forall (λ item, Types.originalName item ≠ Types.originalName r)
                      (take j (processed w) ++ drop (S j) (processed w))).
  { apply Forall_app. split; apply Forall_lookup_2; intros i item Hi E.
    - apply lookup_take_Some in Hi as [Hi Hlt]. specialize (Huniq i item Hi E). lia.
    - rewrite lookup_drop in Hi. specialize (Huniq _ item Hi E). lia. }
  rewrite Hsplit in Hgood.
  destruct (build_archive_folder _ _ r Hgood Hothers) as (Hdir & Hfiles & Hall).
  rewrite <- Hsplit in Hdir, Hfiles, Hall.
  eexists _, _, _. split; [by apply downloadZip_run|]. split; [reflexivity|].
  split; [exact Hdir|]. split; [exact Hfiles|].
  intros p Hp Hsome. rewrite <- H4. apply Hall; [|done].
  apply starts_with_top_folder; [apply Hn | done].
Qed.

Lemma downloadZip_entries_witness :
  let w := (@processImages Fixtures.counting
              (Fixtures.fresh [Fixtures.image "a.png"; Fixtures.image "b.png"] true)).2 in
  ∃ w' filename archive,
    @downloadZip Fixtures.counting w = (Ok tt, w')
    ∧ log w' = log w ++ [EvDownload filename archive]
    ∧ archive !! "b/" = Some Zip.Dir
    ∧ archive !! "b/b_quad_3.png"
      = Some (Zip.Data (String.list_byte_of_string "data:image/png;base64,b.png2")).
Proof.
  intros w.
  destruct (@downloadZip_entries Fixtures.counting w 1
              (Types.mkProcessed "id1" "b"
                 ((λ k : nat, "data:image/png;base64,b.png" +:+ pretty k) <$> [0; 1; 2; 3])))
    as (w' & filename & archive & Hrun & Hlog & Hdir & Hfiles & _).
  - reflexivity.
  - vm_compute. repeat (apply Forall_cons_2 || apply Forall_nil_2);
      (split; [discriminate | literal_slash_free]).
  - reflexivity.
  - intros [|[|j']] r' Hr' E; [exfalso | reflexivity | exfalso]; vm_compute in Hr'.
    + injection Hr' as <-. vm_compute in E. discriminate.
    + discriminate.
  - reflexivity.
  - exists w', filename, archive. split; [exact Hrun|]. split; [exact Hlog|].
    split; [exact Hdir|]. exact (Hfiles 2 _ eq_refl).
Defined.

(** C6, as stated, fails: of the two results named [a], the first one's
    quadrant 0 is not what [a/a_quad_1.png] holds, the second result having
    overwritten it; and for the result with the empty display name no folder
    is created, its files landing at the top of the archive. *)
Lemma downloadZip_entry_overwritten :
  let items := processed (@processImages Fixtures.counting
                 (Fixtures.fresh [Fixtures.image "a.png"; Fixtures.image "a.jpg"] true)).2 in
  let nameless := processed (@processImages Fixtures.counting
                    (Fixtures.fresh [Fixtures.image ".png"] true)).2 in
  (∃ r q, items !! 0 = Some r ∧ Types.originalName r = "a"
          ∧ Types.quadrants r !! 0 = Some q
          ∧ @build_archive Fixtures.counting items !! "a/a_quad_1.png"
            ≠ Some (Zip.Data (@dataURLtoBlob Fixtures.counting q)))
  ∧ (∃ r, nameless !! 0 = Some r ∧ Types.originalName r = ""
          ∧ Zip.folders (@build_archive Fixtures.counting nameless) = ∅
          ∧ is_Some (@build_archive Fixtures.counting nameless !! "_quad_1.png")).
Proof.
  split.
  - eexists _, _. split; [vm_compute; reflexivity|]. split; [reflexivity|].
    split; [reflexivity|]. vm_compute. discriminate.
  - eexists. split; [vm_compute; reflexivity|]. split; [reflexivity|].
    split; [by vm_compute | vm_compute; by eexists].
Qed.


(** ** The file list and its previews *)

(** Equalities of sets of object URLs. *)
Ltac url_sets := apply set_eq; intros ?; set_unfold; tauto.

Section ShellFacts.
Import Shell.
Context `{Browser}.

Lemma previews_app (fs gs : list Types.FileWithPreview) :
  previews (fs ++ gs) = previews fs ++ previews gs.
Proof. unfold previews. apply omap_app. Qed.

Lemma previews_labelled (c : nat) (selected : list Types.FileWithPreview) :
  previews (labelled c selected) = object_url <$> seq c (length selected).
Proof.
  revert c. induction selected as [|f selected IH]; intros c; [done|].
  cbn [labelled length seq]. rewrite fmap_cons. unfold previews in *. simpl.
  by rewrite IH.
Qed.

Lemma labelled_names (c : nat) (selected : list Types.FileWithPreview) :
  Types.name <$> labelled c selected = Types.name <$> selected
  ∧ Types.content <$> labelled c selected = Types.content <$> selected
  ∧ Forall (λ f, Types.status f = Some Types.pending) (labelled c selected).
Proof.
  revert c. induction selected as [|f selected IH]; intros c; [by repeat split|].
  destruct (IH (S c)) as (IHn & IHc & IHs). cbn [labelled]. rewrite !fmap_cons, IHn, IHc.
  repeat split. by constructor.
Qed.

Lemma with_previews_run (selected : list Types.FileWithPreview) (pg : Page) :
  with_previews selected pg
  = (Ok (labelled (url_count pg) selected),
     mkPage (world pg)
            (list_to_set (object_url <$> seq (url_count pg) (length selected)) ∪ live_urls pg)
            (url_count pg + length selected)).
Proof.
  revert pg. induction selected as [|f selected IH]; intros pg.
  - simpl. unfold mret, M_ret. destruct pg as [w live c]. simpl.
    f_equal. f_equal; [url_sets | lia].
  - cbn [with_previews]. unfold mbind at 1, M_bind at 1, createObjectURL at 1.
    unfold mbind at 1, M_bind at 1. rewrite IH. cbn [world live_urls url_count].
    unfold mret, M_ret. cbn [labelled length seq]. rewrite fmap_cons.
    f_equal. f_equal; [url_sets | lia].
Qed.

(** Selecting files, in full. *)
Lemma handleFileChange_run (selected : list Types.FileWithPreview) (pg : Page) :
  handleFileChange (Some selected) pg
  = (Ok tt,
     mkPage (mkWorld (files (world pg) ++ labelled (url_count pg) selected)
                     (processed (world pg)) (status (world pg)) (progress (world pg))
                     (JSZip_loaded (world pg)) (now (world pg)) (draws (world pg))
                     (log (world pg)))
            (list_to_set (object_url <$> seq (url_count pg) (length selected)) ∪ live_urls pg)
            (url_count pg + length selected)).
Proof.
  unfold handleFileChange, mbind, M_bind. by rewrite with_previews_run.
Qed.

Lemma balanced_preview_truthy (pg : Page) (i : nat) (f : Types.FileWithPreview) :
  urls_balanced pg → files (world pg) !! i = Some f →
  ∃ k, k < url_count pg ∧ Types.preview f = Some (object_url k)
       ∧ truthy (Types.preview f) = Some (object_url k).
Proof.
  intros (Hall & _) Hi. destruct (Forall_lookup_1 _ _ _ _ Hall Hi) as (k & Hk & Hp).
  exists k. split; [done|]. split; [done|]. rewrite Hp. simpl.
  rewrite decide_False; [done | apply object_url_nonempty].
Qed.

Lemma balanced_previews_total (pg : Page) :
  urls_balanced pg →
  omap (truthy ∘ Types.preview) (files (world pg)) = previews (files (world pg)).
Proof.
  intros (Hall & _). unfold previews.
  induction Hall as [|f fs (k & _ & Hp) _ IH]; [done|].
  cbn [omap list_omap compose]. rewrite Hp. cbn [truthy].
  rewrite decide_False by apply object_url_nonempty. by f_equal.
Qed.

Lemma balanced_fresh (pg : Page) : urls_balanced pg → object_url (url_count pg) ∉ live_urls pg.
Proof.
  intros (Hall & _ & ->). rewrite elem_of_list_to_set. unfold previews.
  rewrite list_elem_of_omap. intros (f & Hf & Hp).
  rewrite Forall_forall in Hall. destruct (Hall f Hf) as (k & Hk & Hp').
  rewrite Hp' in Hp. simplify_eq. apply object_url_inj in Hp. lia.
Qed.

(** Revoking the previews of a list of files. *)
Lemma revoke_all_run (i : nat) (fs : list Types.FileWithPreview) (pg : Page) :
  for_each i fs (λ _ f, revoke_preview f) pg
  = (Ok tt,
     mkPage (world pg)
            (live_urls pg ∖ list_to_set (omap (truthy ∘ Types.preview) fs))
            (url_count pg)).
Proof.
  revert i pg. induction fs as [|f fs IH]; intros i pg.
  - simpl. unfold mret, M_ret. destruct pg as [w live c]. simpl.
    f_equal. f_equal. url_sets.
  - cbn [for_each]. unfold mbind, M_bind, revoke_preview at 1. simpl.
    destruct (truthy (Types.preview f)) as [url|]; simpl.
    + rewrite IH. simpl. f_equal. f_equal. url_sets.
    + unfold mret, M_ret. rewrite IH. done.
Qed.

(** Clearing, in full. *)
Lemma clearAll_run (pg : Page) :
  clearAll pg
  = (Ok tt,
     mkPage (mkWorld [] [] Types.IDLE (JsNumber.of_nat 0)
                     (JSZip_loaded (world pg)) (now (world pg)) (draws (world pg))
                     (log (world pg) ++ [EvSetProcessed []; EvSetStatus Types.IDLE;
                                         EvSetProgress (JsNumber.of_nat 0)]))
            (live_urls pg ∖ list_to_set (omap (truthy ∘ Types.preview) (files (world pg))))
            (url_count pg)).
Proof.
  unfold clearAll, mbind, M_bind. rewrite revoke_all_run.
  cbv beta iota zeta delta
    [on_world setFiles setProcessed setStatus setProgress emit world live_urls url_count
     files processed status progress JSZip_loaded now draws log].
  by rewrite <- !app_assoc.
Qed.

(** Removing a file that is there, in full. *)
Lemma removeFile_run (index : nat) (f : Types.FileWithPreview) (pg : Page) :
  files (world pg) !! index = Some f →
  removeFile index pg
  = (Ok tt,
     mkPage (mkWorld (delete index (files (world pg)))
                     (processed (world pg)) (status (world pg)) (progress (world pg))
                     (JSZip_loaded (world pg)) (now (world pg)) (draws (world pg))
                     (log (world pg)))
            (live_urls pg ∖ list_to_set (option_list (truthy (Types.preview f))))
            (url_count pg)).
Proof.
  intros Hf. unfold removeFile. rewrite Hf. unfold mbind, M_bind, revoke_preview.
  destruct (truthy (Types.preview f)) as [url|];
    unfold revokeObjectURL, mret, M_ret, on_world, setFiles; simpl;
    do 2 f_equal; url_sets.
Qed.

Lemma labelled_handed_out (c bound : nat) (selected : list Types.FileWithPreview) :
  c + length selected ≤ bound →
  Forall (λ f, ∃ k, k < bound ∧ Types.preview f = Some (object_url k)) (labelled c selected).
Proof.
  revert c. induction selected as [|f selected IH]; intros c Hc; [constructor|].
  cbn [labelled length] in *. constructor.
  - exists c. split; [lia | done].
  - apply IH. lia.
Qed.

Lemma handleFileChange_balanced target_files (pg : Page) :
  urls_balanced pg → urls_balanced (handleFileChange target_files pg).2.
Proof.
  intros (Hall & Hnd & Hlive). destruct target_files as [selected|]; [|done].
  rewrite handleFileChange_run. unfold urls_balanced.
  cbn [snd world files live_urls url_count].
  rewrite previews_app, previews_labelled. split; [|split].
  - apply Forall_app. split.
    + eapply Forall_impl; [exact Hall|]. intros f (k & Hk & Hp). exists k. split; [lia|done].
    + by apply labelled_handed_out.
  - apply NoDup_app. split; [done|]. split.
    + intros u Hu (k & -> & Hk)%list_elem_of_fmap.
      apply elem_of_seq in Hk. unfold previews in Hu.
      apply list_elem_of_omap in Hu as (f & Hf & Hp).
      rewrite Forall_forall in Hall. destruct (Hall f Hf) as (k' & Hk' & Hp').
      rewrite Hp' in Hp. simplify_eq. apply object_url_inj in Hp. lia.
    + apply NoDup_fmap_2; [apply object_url_inj | apply NoDup_seq].
  - rewrite Hlive, list_to_set_app_L. url_sets.
Qed.

Lemma removeFile_balanced (index : nat) (pg : Page) :
  urls_balanced pg → urls_balanced (removeFile index pg).2.
Proof.
  intros Hb. destruct (files (world pg) !! index) as [f|] eqn:Hf.
  - destruct (balanced_preview_truthy pg index f Hb Hf) as (k & Hk & Hp & Ht).
    rewrite (removeFile_run index f) by done. rewrite Ht.
    destruct Hb as (Hall & Hnd & Hlive). unfold urls_balanced.
    cbn [snd world files live_urls url_count option_list].
    rewrite <- (take_drop_middle _ _ _ Hf) in Hall, Hnd, Hlive.
    assert (Hdel : delete index (files (world pg))
                   = take index (files (world pg)) ++ drop (S index) (files (world pg))).
    { rewrite <- (take_drop_middle _ _ _ Hf) at 1.
      assert (Hlen : length (take index (files (world pg))) = index).
      { apply length_take_le. apply lookup_lt_Some in Hf. lia. }
      rewrite <- Hlen at 1. by rewrite delete_middle. }
    rewrite Hdel. rewrite previews_app in *. unfold previews in Hnd, Hlive at 2.
    cbn [omap list_omap] in Hnd, Hlive. rewrite Hp in Hnd, Hlive.
    fold (previews (drop (S index) (files (world pg)))) in Hnd, Hlive.
    apply Forall_app in Hall as [Hall1 Hall2]. apply Forall_cons in Hall2 as [_ Hall2].
    apply NoDup_app in Hnd as (Hnd1 & Hdisj & Hnd2).
    apply NoDup_cons in Hnd2 as [Hnotin Hnd2].
    split; [by apply Forall_app|]. split.
    + apply NoDup_app. split; [done|]. split; [|done].
      intros u Hu Hu'. apply (Hdisj u Hu). by right.
    + rewrite Hlive, !list_to_set_app_L, list_to_set_cons.
      assert (object_url k ∉ previews (take index (files (world pg)))).
      { intros Hin. apply (Hdisj _ Hin). by left. }
      apply set_eq; intros u; set_unfold; intuition congruence.
  - unfold removeFile. by rewrite Hf.
Qed.

Lemma clearAll_balanced (pg : Page) : urls_balanced pg → urls_balanced (clearAll pg).2.
Proof.
  intros Hb. rewrite clearAll_run, balanced_previews_total by done.
  destruct Hb as (_ & _ & Hlive). unfold urls_balanced.
  cbn [snd world files live_urls url_count previews omap list_omap].
  split; [constructor|]. split; [constructor|]. rewrite Hlive. url_sets.
Qed.

Lemma initial_balanced (loaded : bool) (time : Z) (seed : nat) :
  urls_balanced (initial loaded time seed).
Proof. split; [constructor|]. split; [constructor | done]. Qed.

Lemma on_world_balanced {A} (m : M World A) (pg : Page) :
  files (m (world pg)).2 = files (world pg) →
  urls_balanced pg → urls_balanced (on_world m pg).2.
Proof.
  intros Hfiles (Hall & Hnd & Hlive). unfold on_world, urls_balanced.
  destruct (m (world pg)) as [r w'] eqn:E. simpl in *. by rewrite Hfiles.
Qed.

End ShellFacts.

Section PageFacts.
Import Shell.
Context `{Browser} `{Platform}.

Lemma processImages_files (w : World) : files (processImages w).2 = files w.
Proof.
  destruct (files w) as [|f fs] eqn:E.
  - unfold processImages. by rewrite E.
  - destruct (processImages_run w) as (p & evs & -> & _); [by rewrite E|]. by rewrite E.
Qed.

Lemma processImages_at_rest (w : World) : at_rest w → at_rest (processImages w).2.
Proof.
  intros Hrest. destruct (files w) as [|f fs] eqn:E.
  - unfold processImages. by rewrite E.
  - destruct (processImages_run w) as (p & evs & -> & _); [by rewrite E|].
    split; [by right | discriminate].
Qed.

Lemma downloadZip_world (w : World) :
  ∃ evs, (downloadZip w).2
         = mkWorld (files w) (processed w) (status w) (progress w)
                   (JSZip_loaded w) (now w) (draws w) (log w ++ evs)
         ∧ (downloadZip w).1 = Ok tt.
Proof.
  unfold downloadZip, alert, emit.
  destruct (JSZip_loaded w); simpl; eexists; split; reflexivity.
Qed.

Lemma downloadZipPage_run (pg : Page) :
  urls_balanced pg →
  ∃ evs,
    downloadZipPage pg
    = (Ok tt,
       mkPage (mkWorld (files (world pg)) (processed (world pg)) (status (world pg))
                       (progress (world pg)) (JSZip_loaded (world pg)) (now (world pg))
                       (draws (world pg)) (log (world pg) ++ evs))
              (live_urls pg)
              (if JSZip_loaded (world pg) then S (url_count pg) else url_count pg)).
Proof.
  intros Hb. pose proof (balanced_fresh pg Hb) as Hfresh.
  destruct (downloadZip_world (world pg)) as (evs & Hw & Hr).
  exists evs. unfold downloadZipPage.
  destruct (JSZip_loaded (world pg)) eqn:Hl; simpl.
  - unfold mbind, M_bind, createObjectURL, on_world, revokeObjectURL. simpl.
    destruct (downloadZip (world pg)) as [r w'] eqn:E. simpl in *. subst r w'.
    do 2 f_equal. apply set_eq; intros u; set_unfold; intuition congruence.
  - unfold on_world. destruct (downloadZip (world pg)) as [r w'] eqn:E. simpl in *.
    subst r w'. done.
Qed.

Lemma step_balanced (pg pg' : Page) :
  step pg pg' → urls_balanced pg → urls_balanced pg'.
Proof.
  intros Hstep Hb. destruct Hstep.
  - by apply handleFileChange_balanced.
  - by apply removeFile_balanced.
  - by apply clearAll_balanced.
  - apply on_world_balanced; [apply processImages_files | done].
  - destruct (downloadZipPage_run pg Hb) as (evs & ->).
    destruct Hb as (Hall & Hnd & Hlive). unfold urls_balanced.
    cbn [snd world files live_urls url_count]. split; [|done].
    eapply Forall_impl; [exact Hall|]. intros f (k & Hk & Hp). exists k.
    split; [destruct (JSZip_loaded (world pg)); lia | done].
  - exact Hb.
Qed.

Lemma step_at_rest (pg pg' : Page) :
  step pg pg' → at_rest (world pg) → at_rest (world pg').
Proof.
  intros Hstep Hrest. destruct Hstep.
  - destruct target_files as [selected|]; [|done]. by rewrite handleFileChange_run.
  - destruct (files (world pg) !! index) as [f|] eqn:Hf.
    + by rewrite (removeFile_run index f).
    + unfold removeFile. by rewrite Hf.
  - rewrite clearAll_run. split; [by left | done].
  - unfold processImagesPage, on_world.
    pose proof (processImages_at_rest (world pg) Hrest).
    by destruct (processImages (world pg)).
  - unfold downloadZipPage.
    destruct (downloadZip_world (world pg)) as (evs & Hw & _).
    destruct (JSZip_loaded (world pg));
      unfold mbind, M_bind, createObjectURL, on_world, revokeObjectURL; simpl;
      destruct (downloadZip (world pg)) as [[] w'] eqn:E; simpl in *; by subst w'.
  - exact Hrest.
Qed.

End PageFacts.

Import Shell.

(** X1 (selecting files).  [handleFileChange] appends the selected files,
    in order and with their names and bytes unchanged, after the files
    already selected; each new file gets status [pending] and an object URL
    of its own as preview; the processed results, the status and the
    progress counter are left as they were, so the results of an earlier run
    stay on display.  A [null] file list changes nothing. *)
Theorem handleFileChange_appends `{Browser} (selected : list Types.FileWithPreview) (pg : Page) :
  ∃ pg' newFiles,
    handleFileChange (Some selected) pg = (Ok tt, pg')
    ∧ files (world pg') = files (world pg) ++ newFiles
    ∧ Types.name <$> newFiles = Types.name <$> selected
    ∧ Types.content <$> newFiles = Types.content <$> selected
    ∧ Forall (λ f, Types.status f = Some Types.pending) newFiles
    ∧ Types.preview <$> newFiles
      = (λ k, Some (object_url k)) <$> seq (url_count pg) (length selected)
    ∧ NoDup (Types.preview <$> newFiles)
    ∧ processed (world pg') = processed (world pg)
    ∧ status (world pg') = status (world pg)
    ∧ progress (world pg') = progress (world pg)
    ∧ handleFileChange None pg = (Ok tt, pg).
Proof.
  eexists _, (labelled (url_count pg) selected).
  split; [apply handleFileChange_run|]. cbn [world files processed status progress].
  destruct (labelled_names (url_count pg) selected) as (Hn & Hc & Hs).
  assert (Hp : Types.preview <$> labelled (url_count pg) selected
               = (λ k, Some (object_url k)) <$> seq (url_count pg) (length selected)).
  { clear. generalize (url_count pg).
    induction selected as [|f selected IH]; intros c; [done|].
    cbn [labelled length seq]. by rewrite !fmap_cons, IH. }
  repeat split; try done. rewrite Hp. apply NoDup_fmap_2; [|apply NoDup_seq].
  intros a b E. simplify_eq. by apply object_url_inj.
Qed.

(** X2 (removing a file).  On a page whose object URLs are balanced,
    [removeFile] at an index inside the list removes exactly the file at that
    index, keeping the others in order, and revokes that file's preview URL
    and no other: the previews of the remaining files stay alive and the URLs
    stay balanced.  The processed results, the status and the progress
    counter are left as they were. *)
Theorem removeFile_removes `{Browser} (index : nat) (pg : Page) :
  index < length (files (world pg)) →
  urls_balanced pg →
  ∃ pg' f url,
    files (world pg) !! index = Some f
    ∧ Types.preview f = Some url
    ∧ removeFile index pg = (Ok tt, pg')
    ∧ files (world pg') = delete index (files (world pg))
    ∧ live_urls pg' = live_urls pg ∖ {[url]}
    ∧ (url ∉ live_urls pg')
    ∧ (∀ g, g ∈ files (world pg') → ∃ u, Types.preview g = Some u ∧ u ∈ live_urls pg')
    ∧ urls_balanced pg'
    ∧ processed (world pg') = processed (world pg)
    ∧ status (world pg') = status (world pg)
    ∧ progress (world pg') = progress (world pg).
Proof.
  intros Hi Hb. apply lookup_lt_is_Some_2 in Hi as [f Hf].
  destruct (balanced_preview_truthy pg index f Hb Hf) as (k & Hk & Hp & Ht).
  pose proof (removeFile_balanced index pg Hb) as Hb'.
  rewrite (removeFile_run index f pg Hf), Ht in Hb'. cbn [snd option_list] in Hb'.
  eexists _, f, (object_url k). split; [done|]. split; [done|].
  split; [by apply removeFile_run|]. rewrite Ht.
  cbn [world files live_urls processed status progress option_list].
  split; [done|]. split; [url_sets|]. split; [set_unfold; tauto|].
  split; [|done].
  intros g Hg. destruct Hb' as (Hall & _ & Hlive).
  cbn [world files live_urls] in Hall, Hlive.
  rewrite Forall_forall in Hall. destruct (Hall g Hg) as (k' & _ & Hp').
  exists (object_url k'). split; [done|].
  assert (Hin : object_url k' ∈ (list_to_set (previews (delete index (files (world pg))))
                                 : gset string)).
  { apply elem_of_list_to_set. unfold previews. apply list_elem_of_omap. by exists g. }
  by rewrite <- Hlive in Hin.
Qed.

Lemma removeFile_removes_witness :
  ∃ pg',
    removeFile 0 Samples.two_selected = (Ok tt, pg')
    ∧ Types.name <$> files (world pg') = ["b.png"]
    ∧ elements (live_urls pg') = ["blob:1"].
Proof.
  destruct (@removeFile_removes Samples.numbered 0 Samples.two_selected)
    as (pg' & f & url & _ & _ & Hrun & _).
  - vm_compute. lia.
  - apply handleFileChange_balanced, initial_balanced.
  - exists pg'. split; [exact Hrun|].
    assert (E : pg' = (removeFile 0 Samples.two_selected).2)
      by (by rewrite Hrun).
    rewrite E. split; vm_compute; reflexivity.
Defined.

(** Past the end of the list the updater of [removeFile] throws before it
    revokes or removes anything. *)
Lemma removeFile_out_of_range (index : nat) (pg : Page) :
  length (files (world pg)) ≤ index →
  ∃ error, removeFile index pg = (Throw error, pg).
Proof.
  intros Hi. unfold removeFile. rewrite lookup_ge_None_2 by done. by eexists.
Qed.

(** X3 (reset).  On a page whose object URLs are balanced, [clearAll] does
    not throw and leaves no file selected, no processed result, the status
    [IDLE], the progress counter at 0 and no object URL alive: every preview
    has been revoked.  The action bar with its download button is gone, and
    starting a run right after does nothing at all. *)
Theorem clearAll_resets `{Browser} `{Platform} (pg : Page) :
  urls_balanced pg →
  ∃ pg',
    clearAll pg = (Ok tt, pg')
    ∧ files (world pg') = []
    ∧ processed (world pg') = []
    ∧ status (world pg') = Types.IDLE
    ∧ progress (world pg') = JsNumber.of_nat 0
    ∧ live_urls pg' = ∅
    ∧ View.action_bar_shown (world pg') = false
    ∧ View.download_button_shown (world pg') = false
    ∧ processImagesPage pg' = (Ok tt, pg').
Proof.
  intros Hb. eexists. split; [apply clearAll_run|].
  cbn [world files processed status progress live_urls].
  rewrite balanced_previews_total by done. destruct Hb as (_ & _ & ->).
  repeat split; try done. url_sets.
Qed.

Lemma clearAll_resets_witness :
  ∃ pg',
    clearAll Samples.two_selected = (Ok tt, pg')
    ∧ files (world pg') = [] ∧ live_urls pg' = ∅.
Proof.
  destruct (@clearAll_resets Samples.numbered Fixtures.counting Samples.two_selected)
    as (pg' & Hrun & Hfiles & _ & _ & _ & Hlive & _).
  - apply handleFileChange_balanced, initial_balanced.
  - exists pg'. auto.
Defined.

(** X4 (no object URL leaks).  Whatever handlers have run since the
    component was first rendered, and in whatever order, the object URLs are
    balanced: every selected file has a preview, no two files share one, and
    the URLs alive are exactly these previews, none left over from a removed
    file or from a download. *)
Theorem reachable_balanced `{Browser} `{Platform} (pg : Page) :
  reachable pg → urls_balanced pg.
Proof.
  induction 1 as [loaded time seed | pg pg' _ IH Hstep].
  - apply initial_balanced.
  - by eapply step_balanced.
Qed.

Lemma reachable_balanced_witness :
  @urls_balanced Samples.numbered (removeFile 0 Samples.two_selected).2.
Proof.
  apply (@reachable_balanced Samples.numbered Fixtures.counting).
  eapply reachable_step; [|apply step_removeFile].
  eapply reachable_step; [apply (reachable_initial true 1700000000000 0)|].
  apply (step_handleFileChange (Some [Samples.picked "a.png"; Samples.picked "b.png"])).
Defined.

(** X5 (the state between handlers).  When the handlers run one after
    another, each to its end, the status after any of them is [IDLE] or
    [COMPLETED], never [PROCESSING] or [ERROR]; and while it is [IDLE] there
    are no processed results and the progress counter is 0. *)
Theorem reachable_at_rest `{Browser} `{Platform} (pg : Page) :
  reachable pg →
  (status (world pg) = Types.IDLE ∨ status (world pg) = Types.COMPLETED)
  ∧ (status (world pg) = Types.IDLE →
     processed (world pg) = [] ∧ progress (world pg) = JsNumber.of_nat 0)
  ∧ View.process_button_disabled (world pg) = false.
Proof.
  intros Hreach.
  assert (Hrest : at_rest (world pg)).
  { induction Hreach as [loaded time seed | pg pg' _ IH Hstep].
    - split; [by left | done].
    - by eapply step_at_rest. }
  destruct Hrest as [Hst Hidle]. split; [done|]. split; [done|].
  unfold View.process_button_disabled. by destruct Hst as [-> | ->].
Qed.

Lemma reachable_at_rest_witness :
  status (world (@processImagesPage Fixtures.counting Samples.two_selected).2)
  = Types.IDLE
  ∨ status (world (@processImagesPage Fixtures.counting Samples.two_selected).2)
    = Types.COMPLETED.
Proof.
  apply (@reachable_at_rest Samples.numbered Fixtures.counting).
  eapply reachable_step; [|apply step_processImages].
  eapply reachable_step; [apply (reachable_initial true 1700000000000 0)|].
  apply (step_handleFileChange (Some [Samples.picked "a.png"; Samples.picked "b.png"])).
Defined.

(** X6 (select, then remove).  On a page whose object URLs are balanced,
    selecting one more file and then removing the file at the last index
    gives back the file list and the set of live object URLs of before; only
    the count of URLs handed out has moved on. *)
Theorem select_then_remove `{Browser} (f : Types.FileWithPreview) (pg : Page) :
  urls_balanced pg →
  ∃ pg1 pg2,
    handleFileChange (Some [f]) pg = (Ok tt, pg1)
    ∧ removeFile (length (files (world pg))) pg1 = (Ok tt, pg2)
    ∧ world pg2 = world pg
    ∧ live_urls pg2 = live_urls pg
    ∧ url_count pg2 = S (url_count pg).
Proof.
  intros Hb. pose proof (balanced_fresh pg Hb) as Hfresh.
  eexists _, _. split; [apply handleFileChange_run|].
  split.
  - apply (removeFile_run _ (assign_preview f (object_url (url_count pg)))).
    cbn [world files labelled]. by rewrite lookup_app_r, Nat.sub_diag by lia.
  - cbn [world files live_urls url_count labelled assign_preview Types.preview truthy
         length seq option_list].
    rewrite decide_False by apply object_url_nonempty.
    split; [|split; [|lia]].
    + destruct pg as [[fs ps st pr jz nw dr lg] live c].
      cbn [world files processed status progress JSZip_loaded now draws log]. f_equal.
      by rewrite (delete_middle fs []), app_nil_r.
    + rewrite fmap_cons, fmap_nil. cbn [option_list].
      apply set_eq; intros u; set_unfold; intuition congruence.
Qed.

Lemma select_then_remove_witness :
  ∃ pg1 pg2,
    @handleFileChange Samples.numbered (Some [Samples.picked "c.png"]) Samples.two_selected
    = (Ok tt, pg1)
    ∧ removeFile 2 pg1 = (Ok tt, pg2)
    ∧ world pg2 = world Samples.two_selected
    ∧ live_urls pg2 = live_urls Samples.two_selected.
Proof.
  destruct (@select_then_remove Samples.numbered (Samples.picked "c.png") Samples.two_selected)
    as (pg1 & pg2 & H1 & H2 & Hw & Hl & _).
  - apply handleFileChange_balanced, initial_balanced.
  - exists pg1, pg2. auto.
Defined.

(** ** The progress counter *)
Section ProgressFacts.
Import Progress.

Lemma integer_of_Some (x : float) (k : nat) : integer_of x = Some k → x = JsNumber.of_nat k.
Proof.
  unfold integer_of. intros E.
  match type of E with
  | (if PrimFloat.Leibniz.eqb x (JsNumber.of_nat ?c) then _ else _) = _ =>
      destruct (PrimFloat.Leibniz.eqb x (JsNumber.of_nat c)) eqn:Heq; [|done];
      apply FloatAxioms.Leibniz.eqb_spec in Heq
  end.
  by simplify_eq.
Qed.

Lemma percent_of_Some (x : float) (k : nat) :
  percent_of x = Some k → x = JsNumber.of_nat k ∧ k ≤ 100.
Proof.
  unfold percent_of. destruct (integer_of x) as [k'|] eqn:E; [|done].
  destruct (Nat.leb_spec k' 100); [|done]. intros [= <-].
  split; [by apply integer_of_Some | done].
Qed.

Lemma climbing_lookup (ks : list (option nat)) :
  climbing ks = true →
  (∀ i, i < length ks → ∃ a, ks !! i = Some (Some a))
  ∧ (∀ i a b, ks !! i = Some (Some a) → ks !! S i = Some (Some b) → a ≤ b).
Proof.
  induction ks as [|k ks IH]; intros Hc.
  - split; [simpl; lia | done].
  - destruct k as [a|]; [|done]. destruct ks as [|k' ks].
    + split.
      * intros [|i] Hi; [by exists a | simpl in Hi; lia].
      * by intros [|i] ? ? ? ?.
    + destruct k' as [b|]; [|done]. cbn [climbing] in Hc.
      apply andb_true_iff in Hc as [Hab Hc]. apply Nat.leb_le in Hab.
      destruct (IH Hc) as [IH1 IH2]. split.
      * intros [|i] Hi; [by exists a|]. apply IH1. simpl in *. lia.
      * intros [|i] x y Hx Hy; simpl in *; [by simplify_eq|]. by eapply IH2.
Qed.

(** What a checked table of batch sizes gives for each of its entries. *)
Lemma rows_climb_entry (bound n i : nat) :
  rows_climb bound = true → n ≤ bound → i < n →
  JsNumber.progress_at i n = JsNumber.of_nat (percent_at i n)
  ∧ percent_at i n ≤ 100
  ∧ (S i < n → percent_at i n ≤ percent_at (S i) n).
Proof.
  intros Htable Hn Hi. unfold rows_climb in Htable.
  rewrite forallb_forall in Htable.
  assert (Hrow : climbing (row n) = true).
  { apply Htable. apply list_elem_of_In, elem_of_seq. lia. }
  destruct (climbing_lookup _ Hrow) as [Hsome Hup].
  assert (Hat : ∀ j, j < n → row n !! j = Some (percent_of (JsNumber.progress_at j n))).
  { intros j Hj. unfold row. rewrite list_lookup_fmap, lookup_seq_lt by done. done. }
  assert (Hlen : length (row n) = n) by (unfold row; by rewrite length_fmap, length_seq).
  assert (Hpc : ∀ j, j < n → percent_of (JsNumber.progress_at j n) = Some (percent_at j n)).
  { intros j Hj. destruct (Hsome j) as [a Ha]; [lia|]. rewrite Hat in Ha by done.
    unfold percent_at. simplify_eq. by rewrite Ha. }
  destruct (percent_of_Some _ _ (Hpc i Hi)) as [Heq Hle].
  split; [done|]. split; [done|]. intros HS.
  apply (Hup i); rewrite Hat by lia; f_equal; apply Hpc; lia.
Qed.

Lemma rows_climb_monotone (bound n i j : nat) :
  rows_climb bound = true → n ≤ bound → i ≤ j → j < n →
  percent_at i n ≤ percent_at j n.
Proof.
  intros Htable Hn Hij Hj. induction Hij as [|j Hij IH]; [done|].
  etransitivity; [apply IH; lia|].
  by apply (rows_climb_entry bound n j Htable Hn); lia.
Qed.

Lemma rows_end_entry (bound n : nat) :
  rows_end_at_100 bound = true → 1 ≤ n → n ≤ bound →
  JsNumber.progress_at (n - 1) n = JsNumber.of_nat 100.
Proof.
  intros Htable H1 Hn. unfold rows_end_at_100 in Htable.
  rewrite forallb_forall in Htable.
  apply FloatAxioms.Leibniz.eqb_spec, Htable, list_elem_of_In, elem_of_seq. lia.
Qed.

(** The two tables, checked by evaluation. *)
Lemma rows_climb_256 : rows_climb 256 = true.
Proof. vm_compute. reflexivity. Qed.

Lemma rows_end_at_100_4096 : rows_end_at_100 4096 = true.
Proof. vm_compute. reflexivity. Qed.

End ProgressFacts.

(** ** A run, effect by effect *)
Section RunFacts.
Import Progress.
Context `{Platform}.

Lemma for_each_process_one_full (n i : nat) (inputs : list Types.FileWithPreview)
    (w : World) (rs : list Types.ProcessedImage) :
  for_each i inputs (process_one n) (w, rs)
  = (Ok tt,
     (mkWorld (files w) (processed w) (status w) (progress_after n i inputs (progress w))
              (JSZip_loaded w) (now w)
              (draws w + length (results_from (draws w) inputs))
              (log w ++ loop_events n i inputs),
      rs ++ results_from (draws w) inputs)).
Proof.
  revert i w rs. induction inputs as [|f inputs IH]; intros i w rs.
  - simpl. rewrite !app_nil_r, Nat.add_0_r. by destruct w.
  - cbn [for_each progress_after loop_events results_from].
    unfold mbind at 1, M_bind at 1, splits.
    destruct (splitImageIntoFour f) as [q|e] eqn:Hf.
    + rewrite (process_one_ok _ _ _ q) by done. rewrite IH.
      cbn [files processed status progress JSZip_loaded now draws log length].
      do 2 f_equal; [f_equal; [lia|] |]; by rewrite <- app_assoc.
    + rewrite (process_one_throw _ _ _ e) by done. rewrite IH.
      cbn [files processed status progress JSZip_loaded now draws log].
      do 3 f_equal. by rewrite <- app_assoc.
Qed.

(** A run over a non-empty batch as one equation. *)
Lemma processImages_full (w : World) :
  files w ≠ [] →
  processImages w
  = (Ok tt,
     mkWorld (files w) (results_from (draws w) (files w)) Types.COMPLETED
             (progress_after (length (files w)) 0 (files w) (JsNumber.of_nat 0))
             (JSZip_loaded w) (now w)
             (draws w + length (results_from (draws w) (files w)))
             (log w ++ [EvSetStatus Types.PROCESSING; EvSetProcessed [];
                        EvSetProgress (JsNumber.of_nat 0)]
                    ++ loop_events (length (files w)) 0 (files w)
                    ++ [EvSetProcessed (results_from (draws w) (files w));
                        EvSetStatus Types.COMPLETED])).
Proof.
  intros Hne. unfold processImages.
  destruct (decide (length (files w) = 0)) as [H0|_].
  { by destruct (files w). }
  unfold mbind, M_bind, with_local, setStatus, setProcessed, setProgress, emit.
  cbn [files processed status progress JSZip_loaded now draws log].
  rewrite for_each_process_one_full.
  cbn [files processed status progress JSZip_loaded now draws log].
  rewrite app_nil_l. do 2 f_equal. by rewrite <- !app_assoc.
Qed.

Lemma progress_writes_loop_events (n i : nat) (inputs : list Types.FileWithPreview) :
  progress_writes (loop_events n i inputs)
  = (λ j, JsNumber.progress_at j n) <$> split_indices i inputs.
Proof.
  revert i. induction inputs as [|f inputs IH]; intros i; [done|].
  cbn [loop_events split_indices]. unfold splits.
  destruct (splitImageIntoFour f); simpl; by rewrite IH.
Qed.

Lemma attempted_loop_events (n i : nat) (inputs : list Types.FileWithPreview) :
  attempted (loop_events n i inputs) = inputs.
Proof.
  revert i. induction inputs as [|f inputs IH]; intros i; [done|].
  cbn [loop_events]. destruct (splitImageIntoFour f); simpl; by rewrite IH.
Qed.

Lemma split_indices_bounds (i : nat) (inputs : list Types.FileWithPreview) :
  Forall (λ j, i ≤ j < i + length inputs) (split_indices i inputs).
Proof.
  revert i. induction inputs as [|f inputs IH]; intros i; [constructor|].
  cbn [split_indices length].
  assert (Hrest : Forall (λ j, i ≤ j < i + S (length inputs)) (split_indices (S i) inputs)).
  { eapply Forall_impl; [apply IH|]. intros j Hj. simpl in Hj. lia. }
  destruct (splits f); [constructor; [lia | done] | done].
Qed.

Lemma progress_after_last (n i : nat) (inputs : list Types.FileWithPreview)
    (f : Types.FileWithPreview) (p : float) :
  splits f = true →
  progress_after n i (inputs ++ [f]) p = JsNumber.progress_at (i + length inputs) n.
Proof.
  intros Hf. revert i p. induction inputs as [|g inputs IH]; intros i p.
  - simpl. by rewrite Hf, Nat.add_0_r.
  - cbn [app progress_after length]. rewrite IH. f_equal. lia.
Qed.

Lemma results_from_filter (d : nat) (inputs : list Types.FileWithPreview) :
  Forall2 result_of (results_from d inputs) (filter (λ f, splits f = true) inputs).
Proof.
  revert d. induction inputs as [|f inputs IH]; intros d; [constructor|].
  rewrite filter_cons. cbn [results_from].
  destruct (splitImageIntoFour f) as [q|e] eqn:Hf.
  - rewrite decide_True by (unfold splits; by rewrite Hf).
    constructor; [done | apply IH].
  - rewrite decide_False by (unfold splits; by rewrite Hf). apply IH.
Qed.

(** Apart from their identifiers, the results depend on the inputs alone. *)
Lemma results_from_shape (d d' : nat) (inputs : list Types.FileWithPreview) :
  (λ r, (Types.originalName r, Types.quadrants r)) <$> results_from d inputs
  = (λ r, (Types.originalName r, Types.quadrants r)) <$> results_from d' inputs.
Proof.
  revert d d'. induction inputs as [|f inputs IH]; intros d d'; [done|].
  cbn [results_from]. destruct (splitImageIntoFour f); [|apply IH].
  rewrite !fmap_cons. f_equal. apply IH.
Qed.

Lemma results_from_none (d : nat) (inputs : list Types.FileWithPreview) :
  Forall (λ f, splits f = false) inputs → results_from d inputs = [].
Proof.
  induction 1 as [|f inputs Hf _ IH]; [done|].
  cbn [results_from]. unfold splits in Hf. by destruct (splitImageIntoFour f).
Qed.

(** The cut of [split] at the first separator. *)
Lemma first_piece_cut (c : ascii) (s : string) :
(c ∉ JsString.chars (JsString.first_piece (JsString.split c s)))
  ∧ ∃ rest, s = JsString.first_piece (JsString.split c s) +:+ rest
            ∧ (rest = EmptyString ∨ ∃ tail, rest = String c tail).
Proof.
  induction s as [|a s (IHfree & rest & IHeq & IHrest)].
  - split; [apply not_elem_of_nil|]. exists EmptyString. by split; [|left].
  - cbn [JsString.split]. case_decide as Ha.
    + subst a. split; [apply not_elem_of_nil|]. exists (String c s).
      split; [done | right; by exists s].
    + pose proof (split_nonempty c s) as Hne.
      destruct (JsString.split c s) as [|piece pieces]; [done|].
      unfold JsString.first_piece in *. cbn [head default id JsString.chars] in *.
      split.
      * apply not_elem_of_cons. split; [by apply not_eq_sym | done].
      * exists rest. split; [|done]. rewrite string_app_cons. by f_equal.
Qed.

End RunFacts.

(** X7 (any pattern of failures).  A run over a non-empty batch does not
    throw, attempts every image once and in order, and leaves as results,
    in input order, exactly one result for each image that the splitter
    resolves for, each with the display name of its image and the quadrants
    the splitter returned; an image that fails leaves a console error and no
    result. *)
Theorem processImages_keeps_what_splits `{Platform} (w : World) :
  files w ≠ [] →
  ∃ w' evs,
    processImages w = (Ok tt, w')
    ∧ log w' = log w ++ evs
    ∧ attempted evs = files w
    ∧ Forall2 result_of (processed w') (filter (λ f, Progress.splits f = true) (files w))
    ∧ length (processed w') ≤ length (files w)
    ∧ files w' = files w.
Proof.
  intros Hne. eexists _, _. split; [by apply processImages_full|].
  cbn [log processed files]. split; [reflexivity|].
  split; [by rewrite !attempted_app, attempted_loop_events; simpl; rewrite app_nil_r|].
  pose proof (results_from_filter (draws w) (files w)) as HR.
  split; [done|]. split; [|done].
  rewrite (Forall2_length _ _ _ HR). apply length_filter.
Qed.

Lemma processImages_keeps_what_splits_witness :
  ∃ w',
    @processImages Fixtures.counting
      (Fixtures.fresh [Fixtures.corrupt "a.png"; Fixtures.image "b.png";
                       Fixtures.corrupt "c.png"; Fixtures.image "d.png"] true) = (Ok tt, w')
    ∧ Types.originalName <$> processed w' = ["b"; "d"].
Proof.
  destruct (@processImages_keeps_what_splits Fixtures.counting
              (Fixtures.fresh [Fixtures.corrupt "a.png"; Fixtures.image "b.png";
                               Fixtures.corrupt "c.png"; Fixtures.image "d.png"] true))
    as (w' & evs & Hrun & _); [discriminate|].
  exists w'. split; [exact Hrun|].
  assert (E : w' = (@processImages Fixtures.counting
                      (Fixtures.fresh [Fixtures.corrupt "a.png"; Fixtures.image "b.png";
                                       Fixtures.corrupt "c.png"; Fixtures.image "d.png"]
                                      true)).2)
    by (by rewrite Hrun).
  rewrite E. vm_compute. reflexivity.
Defined.

(** X8 (process again).  Running [processImages] a second time over the
    same non-empty file list replaces the results instead of adding to them:
    the second run leaves results with the same display names and the same
    quadrants as the first, in the same order; only the identifiers are
    drawn anew.  What the processed list, the status and the progress
    counter held before a run has no bearing on its results. *)
Theorem processImages_again `{Platform} (w : World) :
  files w ≠ [] →
  ∃ w1 w2,
    processImages w = (Ok tt, w1)
    ∧ processImages w1 = (Ok tt, w2)
    ∧ (λ r, (Types.originalName r, Types.quadrants r)) <$> processed w2
      = (λ r, (Types.originalName r, Types.quadrants r)) <$> processed w1
    ∧ length (processed w2) = length (processed w1)
    ∧ Types.id <$> processed w2
      = random_id <$> seq (draws w + length (processed w1)) (length (processed w2)).
Proof.
  intros Hne. eexists _, _. split; [by apply processImages_full|].
  split; [by apply processImages_full|]. cbn [processed files draws].
  assert (Hshape := results_from_shape
                      (draws w + length (results_from (draws w) (files w)))
                      (draws w) (files w)).
  split; [done|]. split.
  - apply (f_equal length) in Hshape. by rewrite !length_fmap in Hshape.
  - apply results_from_ids.
Qed.

Lemma processImages_again_witness :
  ∃ w1 w2,
    @processImages Fixtures.counting
      (Fixtures.fresh [Fixtures.image "a.png"; Fixtures.corrupt "b.png"] true) = (Ok tt, w1)
    ∧ @processImages Fixtures.counting w1 = (Ok tt, w2)
    ∧ length (processed w2) = length (processed w1).
Proof.
  destruct (@processImages_again Fixtures.counting
              (Fixtures.fresh [Fixtures.image "a.png"; Fixtures.corrupt "b.png"] true))
    as (w1 & w2 & H1 & H2 & _ & Hlen & _); [discriminate|].
  exists w1, w2. auto.
Defined.

(** X9 (display names).  The display name of every result of a run is cut
    from the file name of the image it came from at its first full stop:
    result by result, in the order of the images that split, the display
    name holds no full stop, the quadrants are those the splitter returned
    for that image, and the file name of that image is the display name
    followed either by nothing or by a full stop and the rest of the
    name. *)
Theorem processImages_display_names `{Platform} (w : World) :
  files w ≠ [] →
  ∃ w',
    processImages w = (Ok tt, w')
    ∧ Forall2
        (λ r f,
           ("."%char ∉ JsString.chars (Types.originalName r))
           ∧ splitImageIntoFour f = Ok (Types.quadrants r)
           ∧ ∃ rest, Types.name f = Types.originalName r +:+ rest
                     ∧ (rest = EmptyString ∨ ∃ tail, rest = String "." tail))
        (processed w') (filter (λ f, Progress.splits f = true) (files w)).
Proof.
  intros Hne. eexists. split; [by apply processImages_full|]. cbn [processed].
  eapply Forall2_impl; [apply results_from_filter|].
  intros r f [Hname Hq].
  destruct (first_piece_cut "." (Types.name f)) as (Hfree & rest & Heq & Hrest).
  rewrite <- Hname in Hfree, Heq. split; [done|]. split; [done|]. by exists rest.
Qed.

Lemma processImages_display_names_witness :
  ∃ w',
    @processImages Fixtures.counting
      (Fixtures.fresh [Fixtures.corrupt "a.png"; Fixtures.image "a.v2.jpg"] true) = (Ok tt, w')
    ∧ Forall2
        (λ r f,
           ("."%char ∉ JsString.chars (Types.originalName r))
           ∧ @splitImageIntoFour Fixtures.counting f = Ok (Types.quadrants r)
           ∧ ∃ rest, Types.name f = Types.originalName r +:+ rest
                     ∧ (rest = EmptyString ∨ ∃ tail, rest = String "." tail))
        (processed w') [Fixtures.image "a.v2.jpg"].
Proof.
  destruct (@processImages_display_names Fixtures.counting
              (Fixtures.fresh [Fixtures.corrupt "a.png"; Fixtures.image "a.v2.jpg"] true))
    as (w' & Hrun & Hall); [discriminate|].
  exists w'. split; [exact Hrun | exact Hall].
Defined.

(** X10 (progress reaches 100).  In a batch of at most 4096 images, when the
    splitter resolves for the image at the last index, the run ends with the
    progress counter at exactly 100, whatever happened to the images before
    it. *)
Theorem processImages_progress_complete `{Platform} (w : World)
    (inputs : list Types.FileWithPreview) (f : Types.FileWithPreview) :
  files w = inputs ++ [f] →
  length (files w) ≤ 4096 →
  Progress.splits f = true →
  ∃ w',
    processImages w = (Ok tt, w')
    ∧ progress w' = JsNumber.of_nat 100
    ∧ status w' = Types.COMPLETED.
Proof.
  intros Hfiles Hlen Hf.
  assert (Hne : files w ≠ []) by (rewrite Hfiles; by destruct inputs).
  eexists. split; [by apply processImages_full|]. cbn [progress status].
  split; [|done]. rewrite Hfiles at 2. rewrite progress_after_last by done.
  rewrite Hfiles, length_app in *. cbn [length] in *.
  replace (0 + length inputs) with (length inputs + 1 - 1) by lia.
  apply (rows_end_entry 4096 (length inputs + 1)); [apply rows_end_at_100_4096 | lia | lia].
Qed.

Lemma processImages_progress_complete_witness :
  ∃ w',
    @processImages Fixtures.counting
      (Fixtures.fresh [Fixtures.corrupt "a.png"; Fixtures.corrupt "b.png";
                       Fixtures.image "c.png"] true) = (Ok tt, w')
    ∧ progress w' = JsNumber.of_nat 100.
Proof.
  destruct (@processImages_progress_complete Fixtures.counting
              (Fixtures.fresh [Fixtures.corrupt "a.png"; Fixtures.corrupt "b.png";
                               Fixtures.image "c.png"] true)
              [Fixtures.corrupt "a.png"; Fixtures.corrupt "b.png"] (Fixtures.image "c.png"))
    as (w' & Hrun & Hp & _).
  - reflexivity.
  - simpl. lia.
  - reflexivity.
  - exists w'. auto.
Defined.

Section ClimbFacts.
Import Progress.
Context `{Platform}.

Lemma progress_after_last_write (n i : nat) (inputs : list Types.FileWithPreview) (p : float) :
  progress_after n i inputs p
  = default p (last ((λ j, JsNumber.progress_at j n) <$> split_indices i inputs)).
Proof.
  revert i p. induction inputs as [|f inputs IH]; intros i p; [done|].
  cbn [progress_after split_indices]. rewrite IH. destruct (splits f); [|done].
  rewrite fmap_cons.
  destruct ((λ j, JsNumber.progress_at j n) <$> split_indices (S i) inputs) as [|q qs] eqn:E;
    [done|].
  rewrite last_cons_cons. destruct (last (q :: qs)) eqn:El; [done|].
  by apply last_None in El.
Qed.

(** The percentages written over the images that split never go down. *)
Lemma percents_sorted (bound n i : nat) (inputs : list Types.FileWithPreview) :
  rows_climb bound = true → n ≤ bound → i + length inputs ≤ n →
  StronglySorted le ((λ j, percent_at j n) <$> split_indices i inputs).
Proof.
  intros Htable Hn. revert i. induction inputs as [|f inputs IH]; intros i Hi; [constructor|].
  cbn [split_indices length] in *. destruct (splits f); [|apply IH; lia].
  rewrite fmap_cons. constructor; [apply IH; lia|].
  apply Forall_fmap. eapply Forall_impl; [apply split_indices_bounds|].
  intros j Hj. cbn beta in *. apply (rows_climb_monotone bound); [done | done | lia | lia].
Qed.

Lemma percents_written (bound n i : nat) (inputs : list Types.FileWithPreview) :
  rows_climb bound = true → n ≤ bound → i + length inputs ≤ n →
  (λ j, JsNumber.progress_at j n) <$> split_indices i inputs
  = JsNumber.of_nat <$> ((λ j, percent_at j n) <$> split_indices i inputs)
  ∧ Forall (λ k, k ≤ 100) ((λ j, percent_at j n) <$> split_indices i inputs).
Proof.
  intros Htable Hn Hi. pose proof (split_indices_bounds i inputs) as Hb.
  induction Hb as [|j js Hj _ IH]; [by split; [|constructor]|].
  destruct IH as [IH1 IH2]. rewrite !fmap_cons.
  destruct (rows_climb_entry bound n j Htable Hn) as (Heq & Hle & _); [lia|].
  split; [by rewrite Heq, IH1 | by constructor].
Qed.

End ClimbFacts.

(** X11 (progress never goes back).  In a batch of at most 256 images, the
    values written to the progress counter during a run are whole
    percentages between 0 and 100 that start at 0 and never go down, one
    written at the start and one after each image that splits; the counter
    ends at the last of them. *)
Theorem processImages_progress_climbs `{Platform} (w : World) :
  files w ≠ [] →
  length (files w) ≤ 256 →
  ∃ w' evs ks,
    processImages w = (Ok tt, w')
    ∧ log w' = log w ++ evs
    ∧ progress_writes evs = JsNumber.of_nat <$> (0 :: ks)
    ∧ length ks = length (processed w')
    ∧ Forall (λ k, k ≤ 100) ks
    ∧ StronglySorted le (0 :: ks)
    ∧ progress w' = JsNumber.of_nat (default 0 (last ks)).
Proof.
  intros Hne Hlen.
  eexists (processImages w).2, _,
    ((λ j, Progress.percent_at j (length (files w))) <$> Progress.split_indices 0 (files w)).
  rewrite processImages_full by done. cbn [snd log progress processed].
  destruct (percents_written 256 (length (files w)) 0 (files w) rows_climb_256 Hlen)
    as [Hwritten Hle]; [lia|].
  split; [done|]. split; [reflexivity|]. split; [|split; [|split; [done|split]]].
  - rewrite !progress_writes_app, progress_writes_loop_events, Hwritten. simpl.
    by rewrite app_nil_r.
  - rewrite length_fmap.
    pose proof (results_from_filter (draws w) (files w)) as HR.
    rewrite (Forall2_length _ _ _ HR). clear.
    generalize 0. induction (files w) as [|f fs IH]; intros i; [done|].
    rewrite filter_cons. cbn [Progress.split_indices].
    destruct (Progress.splits f); simpl; by rewrite IH.
  - constructor.
    + by apply (percents_sorted 256); [apply rows_climb_256 | | lia].
    + apply Forall_forall. intros; lia.
  - rewrite progress_after_last_write, Hwritten.
    rewrite fmap_last. by destruct (last _).
Qed.

Lemma processImages_progress_climbs_witness :
  ∃ w' evs,
    @processImages Fixtures.counting
      (Fixtures.fresh [Fixtures.image "a.png"; Fixtures.corrupt "b.png";
                       Fixtures.image "c.png"] true) = (Ok tt, w')
    ∧ progress_writes evs = JsNumber.of_nat <$> [0; 33; 100].
Proof.
  destruct (@processImages_progress_climbs Fixtures.counting
              (Fixtures.fresh [Fixtures.image "a.png"; Fixtures.corrupt "b.png";
                               Fixtures.image "c.png"] true))
    as (w' & evs & ks & Hrun & Hlog & Hw & _).
  - discriminate.
  - simpl. lia.
  - exists w', (drop 0 (log w')). split; [exact Hrun|].
    assert (E : w' = (@processImages Fixtures.counting
                        (Fixtures.fresh [Fixtures.image "a.png"; Fixtures.corrupt "b.png";
                                         Fixtures.image "c.png"] true)).2)
      by (by rewrite Hrun).
    rewrite E. vm_compute. reflexivity.
Defined.

(** X12 (nothing split).  When the splitter fails for every image of a
    non-empty batch, the run still ends in [COMPLETED] with no results: the
    download button is shown with a count of 0, and, the archive library
    being loaded, [downloadZip] does not throw and hands the browser an
    archive with no entry at all. *)
Theorem download_after_total_failure `{Platform} (w : World) :
  files w ≠ [] →
  JSZip_loaded w = true →
  Forall (λ f, Progress.splits f = false) (files w) →
  ∃ w1 w2 filename,
    processImages w = (Ok tt, w1)
    ∧ status w1 = Types.COMPLETED
    ∧ processed w1 = []
    ∧ View.download_button_shown w1 = true
    ∧ View.download_button_count w1 = 0
    ∧ downloadZip w1 = (Ok tt, w2)
    ∧ log w2 = log w1 ++ [EvDownload filename ∅].
Proof.
  intros Hne Hl Hfail. eexists _, _, _.
  split; [by apply processImages_full|].
  rewrite (results_from_none _ _ Hfail). cbn [status processed].
  split; [done|]. split; [done|]. split.
  - unfold View.download_button_shown, View.action_bar_shown. cbn [files status].
    destruct (files w); [done | reflexivity].
  - split; [reflexivity|]. split; [by apply downloadZip_run | reflexivity].
Qed.

Lemma download_after_total_failure_witness :
  ∃ w1 w2 filename,
    @processImages Fixtures.counting
      (Fixtures.fresh [Fixtures.corrupt "a.png"; Fixtures.corrupt "b.png"] true) = (Ok tt, w1)
    ∧ @downloadZip Fixtures.counting w1 = (Ok tt, w2)
    ∧ log w2 = log w1 ++ [EvDownload filename ∅].
Proof.
  destruct (@download_after_total_failure Fixtures.counting
              (Fixtures.fresh [Fixtures.corrupt "a.png"; Fixtures.corrupt "b.png"] true))
    as (w1 & w2 & filename & Hrun & _ & _ & _ & _ & Hd & Hlog).
  - discriminate.
  - reflexivity.
  - repeat constructor.
  - exists w1, w2, filename. auto.
Defined.

(** ** The archive for arbitrary display names *)
Section ArchiveBounds.
Context `{Platform}.

Lemma regular_insert_dir_le (k : string) (fs : gmap string Zip.ZipObject) :
  size (Zip.regular_files (<[k := Zip.Dir]> fs)) ≤ size (Zip.regular_files fs).
Proof.
  unfold Zip.regular_files. rewrite map_filter_insert_False by done.
  rewrite map_filter_delete. apply map_subseteq_size, delete_subseteq.
Qed.

Lemma regular_insert_data_le (k : string) (blob : Zip.Blob) (fs : gmap string Zip.ZipObject) :
  size (Zip.regular_files (<[k := Zip.Data blob]> fs)) ≤ S (size (Zip.regular_files fs)).
Proof.
  unfold Zip.regular_files. rewrite map_filter_insert_True by done.
  rewrite map_size_insert. destruct (filter _ fs !! k); simpl; lia.
Qed.

Lemma folderAdd_regular_le (fuel : nat) (name : string) (fs : gmap string Zip.ZipObject) :
  size (Zip.regular_files (Zip.folderAdd fuel name fs)) ≤ size (Zip.regular_files fs).
Proof.
  revert name fs. induction fuel as [|fuel IH]; intros name fs; cbn [Zip.folderAdd];
    destruct (fs !! Zip.forceTrailingSlash name); try done.
  - apply regular_insert_dir_le.
  - etransitivity; [apply regular_insert_dir_le|]. case_decide; [done | apply IH].
Qed.

Lemma file_regular_le (root name : string) (blob : Zip.Blob) (fs : gmap string Zip.ZipObject) :
  size (Zip.regular_files (Zip.file root name blob fs)) ≤ S (size (Zip.regular_files fs)).
Proof.
  unfold Zip.file, Zip.fileAdd. etransitivity; [apply regular_insert_data_le|].
  apply le_n_S. case_decide; [done | apply folderAdd_regular_le].
Qed.

Lemma zip_item_regular_le (fs : gmap string Zip.ZipObject) (item : Types.ProcessedImage) :
  size (Zip.regular_files (zip_item fs item))
  ≤ size (Zip.regular_files fs) + length (Types.quadrants item).
Proof.
  unfold zip_item. destruct (Zip.folder "" (Types.originalName item) fs) as [fs' root] eqn:E.
  assert (Hfs' : size (Zip.regular_files fs') ≤ size (Zip.regular_files fs)).
  { unfold Zip.folder in E. case_decide; simplify_eq; [done | apply folderAdd_regular_le]. }
  etransitivity; [|apply Nat.add_le_mono_r, Hfs']. clear E Hfs'.
  generalize 0. revert fs'.
  induction (Types.quadrants item) as [|q qs IH]; intros fs' idx; [simpl; lia|].
  cbn [fold_indexed length]. etransitivity; [apply IH|].
  pose proof (file_regular_le root (quad_file_name (Types.originalName item) idx)
                (dataURLtoBlob q) fs'). lia.
Qed.

Lemma build_archive_regular_le (items : list Types.ProcessedImage)
    (fs : gmap string Zip.ZipObject) :
  size (Zip.regular_files (foldl zip_item fs items))
  ≤ size (Zip.regular_files fs) + sum_list (length ∘ Types.quadrants <$> items).
Proof.
  revert fs. induction items as [|item items IH]; intros fs; [simpl; lia|].
  cbn [foldl]. etransitivity; [apply IH|]. rewrite fmap_cons.
  pose proof (zip_item_regular_le fs item). simpl. lia.
Qed.

Lemma sum_quadrants_four (items : list Types.ProcessedImage) :
  Forall (λ item, length (Types.quadrants item) = 4) items →
  sum_list (length ∘ Types.quadrants <$> items) = 4 * length items.
Proof.
  induction 1 as [|item items H4 _ IH]; [done|].
  rewrite fmap_cons. cbn [sum_list sum_list_with length]. simpl in *. lia.
Qed.

End ArchiveBounds.

(** X13 (the count on the button).  With the archive library loaded and
    four quadrants in every result, whatever the display names are, the
    archive that [downloadZip] hands the browser never holds more files than
    the [processed.length * 4] images that the download button announces. *)
Theorem downloadZip_within_count `{Platform} (w : World) :
  JSZip_loaded w = true →
  Forall (λ item, length (Types.quadrants item) = 4) (processed w) →
  ∃ w' filename archive,
    downloadZip w = (Ok tt, w')
    ∧ log w' = log w ++ [EvDownload filename archive]
    ∧ size (Zip.regular_files archive) ≤ View.download_button_count w.
Proof.
  intros Hl H4. eexists _, _, _. split; [by apply downloadZip_run|].
  split; [reflexivity|]. unfold View.download_button_count, build_archive.
  etransitivity; [apply build_archive_regular_le|].
  rewrite sum_quadrants_four by done.
  unfold Zip.regular_files. rewrite map_filter_empty, map_size_empty. lia.
Qed.

Lemma downloadZip_within_count_witness :
  let w := (@processImages Fixtures.counting
              (Fixtures.fresh [Fixtures.image "a.png"; Fixtures.image "a.jpg"] true)).2 in
  View.download_button_count w = 8
  ∧ ∃ w' filename archive,
      @downloadZip Fixtures.counting w = (Ok tt, w')
      ∧ log w' = log w ++ [EvDownload filename archive]
      ∧ size (Zip.regular_files archive) ≤ 8.
Proof.
  intros w. split; [reflexivity|].
  destruct (@downloadZip_within_count Fixtures.counting w)
    as (w' & filename & archive & Hrun & Hlog & Hle).
  - reflexivity.
  - vm_compute. repeat (apply Forall_cons_2 || apply Forall_nil_2); reflexivity.
  - exists w', filename, archive. auto.
Defined.

(** X14 (from files to archive).  With the archive library loaded and a
    splitter that returns four quadrants whenever it resolves, take a
    non-empty batch in which the images that split have display names that
    are non-empty, free of the path separator and pairwise different.
    Processing the batch and then downloading gives an archive with exactly
    one folder per image that split and four files in each, as many files as
    the download button announces; the images that failed leave no trace in
    it. *)
Theorem process_then_download `{Platform} (w : World) :
  files w ≠ [] →
  JSZip_loaded w = true →
  (∀ f q, splitImageIntoFour f = Ok q → length q = 4) →
  Forall (λ f, Zip.good_name (JsString.first_piece (JsString.split "." (Types.name f))))
         (filter (λ f, Progress.splits f = true) (files w)) →
  NoDup ((λ f, JsString.first_piece (JsString.split "." (Types.name f)))
           <$> filter (λ f, Progress.splits f = true) (files w)) →
  ∃ w1 w2 filename archive,
    processImages w = (Ok tt, w1)
    ∧ downloadZip w1 = (Ok tt, w2)
    ∧ log w2 = log w1 ++ [EvDownload filename archive]
    ∧ size (Zip.folders archive)
      = length (filter (λ f, Progress.splits f = true) (files w))
    ∧ size (Zip.regular_files archive)
      = 4 * length (filter (λ f, Progress.splits f = true) (files w))
    ∧ View.download_button_count w1 = size (Zip.regular_files archive).
Proof.
  intros Hne Hl Hfour Hgood Hnd.
  pose proof (results_from_filter (draws w) (files w)) as HR.
  set (kept := filter (λ f, Progress.splits f = true) (files w)) in *.
  set (results := results_from (draws w) (files w)) in *.
  assert (Hnames : Types.originalName <$> results
                   = (λ f, JsString.first_piece (JsString.split "." (Types.name f))) <$> kept).
  { clearbody kept results. clear Hgood Hnd.
    induction HR as [|r f rs fs [Hn _] _ IH]; [done|].
    by rewrite !fmap_cons, Hn, IH. }
  assert (Hg : Forall (λ item, Zip.good_name (Types.originalName item)) results).
  { clearbody kept results. clear Hnames Hnd. revert Hgood.
    induction HR as [|r f rs fs [Hn _] _ IH]; intros Hgood; [constructor|].
    apply Forall_cons in Hgood as [Hf Hgood]. constructor; [by rewrite Hn | by apply IH]. }
  assert (H4 : Forall (λ item, length (Types.quadrants item) = 4) results).
  { clearbody kept results. clear Hnames Hnd Hg Hgood.
    induction HR as [|r f rs fs [_ Hq] _ IH]; constructor; [by eapply Hfour | done]. }
  assert (Hlen : length results = length kept) by apply (Forall2_length _ _ _ HR).
  eexists _, _, _, _. split; [by apply processImages_full|].
  split; [by apply downloadZip_run|]. cbn [log processed]. split; [reflexivity|].
  fold results. unfold View.download_button_count. cbn [processed]. fold results.
  destruct (build_sizes results ∅ Hg) as [Hf Hr];
    [by rewrite Hnames | by intros; apply lookup_empty|].
  unfold build_archive. rewrite Hf, Hr, (sum_quadrants_four _ H4), Hlen.
  unfold Zip.folders, Zip.regular_files. rewrite !map_filter_empty, !map_size_empty.
  repeat split; lia.
Qed.

Lemma process_then_download_witness :
  ∃ w1 w2 filename archive,
    @processImages Fixtures.counting
      (Fixtures.fresh [Fixtures.image "a.png"; Fixtures.corrupt "a.jpg";
                       Fixtures.image "b.png"] true) = (Ok tt, w1)
    ∧ @downloadZip Fixtures.counting w1 = (Ok tt, w2)
    ∧ log w2 = log w1 ++ [EvDownload filename archive]
    ∧ size (Zip.folders archive) = 2
    ∧ size (Zip.regular_files archive) = 8.
Proof.
  destruct (@process_then_download Fixtures.counting
              (Fixtures.fresh [Fixtures.image "a.png"; Fixtures.corrupt "a.jpg";
                               Fixtures.image "b.png"] true))
    as (w1 & w2 & filename & archive & H1 & H2 & Hlog & Hf & Hr & _).
  - discriminate.
  - reflexivity.
  - intros f q Hq. simpl in Hq. unfold Fixtures.sample_split in Hq.
    destruct (Types.content f); [discriminate|]. by injection Hq as <-.
  - vm_compute. repeat (apply Forall_cons_2 || apply Forall_nil_2);
      (split; [discriminate | literal_slash_free]).
  - apply (bool_decide_unpack _). vm_compute. exact I.
  - exists w1, w2, filename, archive. auto.
Defined.

(** X15 (the later result wins).  With the archive library loaded and all
    display names non-empty and free of the path separator, the files of a
    result in the downloaded archive hold that result's own quadrants as soon
    as no later result has the same display name, whatever came before it:
    where two results share a name, the later one overwrites the earlier. *)
Theorem downloadZip_later_wins `{Platform} (w : World)
    (before after : list Types.ProcessedImage) (r : Types.ProcessedImage) :
  JSZip_loaded w = true →
  processed w = before ++ r :: after →
  Forall (λ item, Zip.good_name (Types.originalName item)) (processed w) →
  Forall (λ item, Types.originalName item ≠ Types.originalName r) after →
  ∃ w' filename archive,
    downloadZip w = (Ok tt, w')
    ∧ log w' = log w ++ [EvDownload filename archive]
    ∧ ∀ k q, Types.quadrants r !! k = Some q →
        archive !! (Types.originalName r +:+ "/" +:+ Types.originalName r
                      +:+ "_quad_" +:+ pretty (k + 1) +:+ ".png")
        = Some (Zip.Data (dataURLtoBlob q)).
Proof.
  intros Hl Hp Hgood Hafter. eexists _, _, _. split; [by apply downloadZip_run|].
  split; [reflexivity|]. intros k q Hk. rewrite Hp in *.
  apply Forall_app in Hgood as [_ Hgood]. apply Forall_cons in Hgood as [Hn Hga].
  change (Types.originalName r +:+ "/" +:+ Types.originalName r
            +:+ "_quad_" +:+ pretty (k + 1) +:+ ".png")
    with (entry_path (Types.originalName r) k).
  unfold build_archive. rewrite foldl_app. cbn [foldl].
  rewrite build_frame; [|done|by rewrite top_folder_entry_path by apply Hn].
  rewrite zip_item_eq by done. by apply (insert_quadrants_lookup_key _ 0 k).
Qed.

Lemma downloadZip_later_wins_witness :
  let w := (@processImages Fixtures.counting
              (Fixtures.fresh [Fixtures.image "a.png"; Fixtures.image "a.jpg"] true)).2 in
  ∃ w' filename archive,
    @downloadZip Fixtures.counting w = (Ok tt, w')
    ∧ log w' = log w ++ [EvDownload filename archive]
    ∧ archive !! "a/a_quad_1.png"
      = Some (Zip.Data (String.list_byte_of_string "data:image/png;base64,a.jpg0")).
Proof.
  intros w.
  destruct (@downloadZip_later_wins Fixtures.counting w
              [Types.mkProcessed "id0" "a"
                 ((λ k : nat, "data:image/png;base64,a.png" +:+ pretty k) <$> [0; 1; 2; 3])]
              []
              (Types.mkProcessed "id1" "a"
                 ((λ k : nat, "data:image/png;base64,a.jpg" +:+ pretty k) <$> [0; 1; 2; 3])))
    as (w' & filename & archive & Hrun & Hlog & Hfiles).
  - reflexivity.
  - reflexivity.
  - vm_compute. repeat (apply Forall_cons_2 || apply Forall_nil_2);
      (split; [discriminate | literal_slash_free]).
  - constructor.
  - exists w', filename, archive. split; [exact Hrun|]. split; [exact Hlog|].
    exact (Hfiles 0 _ eq_refl).
Defined.
